(** * provision.config: the two-step configuration loader

    A shallow embedding of [provision/config.py] and the properties of
    its path handling, bundle registry, attribute view and configuration
    driver.

    The module keeps its configuration in module-level globals that the
    functions read and rebind, and it runs code supplied by the site
    (configuration modules and their [init] hooks).  The embedding
    threads a record of those globals through a state-and-exception
    monad; the code of the site enters as a parameter of the driver. *)

From Stdlib Require Import ZArith Ascii String List Bool Lia.
From stdpp Require Import base option list strings gmap fin_maps.

Local Open Scope string_scope.
Local Open Scope list_scope.

(* ===================================================================== *)
(** ** [os.path] on a POSIX system

    The functions of the Python library that [config.py] calls, on
    [str] arguments: [isabs], [join], [basename], [dirname]. *)
(* ===================================================================== *)

Module PosixPath.

Definition sep : ascii := "/"%char.

Definition is_sep (c : ascii) : bool := Ascii.eqb c sep.

(** [s.startswith('/')] *)
Definition startswith_sep (s : string) : bool :=
  match s with
  | String c _ => is_sep c
  | EmptyString => false
  end.

(** [s.endswith('/')] *)
Fixpoint endswith_sep (s : string) : bool :=
  match s with
  | EmptyString => false
  | String c EmptyString => is_sep c
  | String _ r => endswith_sep r
  end.

(** [s.rfind('/')]: the highest index of a separator, [-1] without one. *)
Fixpoint rfind_from (s : string) (i last : Z) : Z :=
  match s with
  | EmptyString => last
  | String c r => rfind_from r (i + 1)%Z (if is_sep c then i else last)
  end.

Definition rfind_sep (s : string) : Z := rfind_from s 0%Z (-1)%Z.

(** The slices [s[i:]] and [s[:i]] for [0 <= i]. *)
Fixpoint slice_from (i : nat) (s : string) : string :=
  match i, s with
  | O, _ => s
  | S i', String _ r => slice_from i' r
  | S _, EmptyString => EmptyString
  end.

Fixpoint slice_to (i : nat) (s : string) : string :=
  match i, s with
  | O, _ => EmptyString
  | S i', String c r => String c (slice_to i' r)
  | S _, EmptyString => EmptyString
  end.

(** [s.rstrip('/')] *)
Fixpoint rstrip_sep (s : string) : string :=
  match s with
  | EmptyString => EmptyString
  | String c r =>
      match rstrip_sep r with
      | EmptyString => if is_sep c then EmptyString else String c EmptyString
      | r' => String c r'
      end
  end.

(** [s == '/' * len(s)] *)
Fixpoint all_sep (s : string) : bool :=
  match s with
  | EmptyString => true
  | String c r => is_sep c && all_sep r
  end.

Definition nonempty (s : string) : bool :=
  match s with EmptyString => false | _ => true end.

(** [os.path.isabs] *)
Definition isabs (s : string) : bool := startswith_sep s.

(** One round of the loop of [os.path.join]: [path] so far, component [b]. *)
Definition join_step (path b : string) : string :=
  if startswith_sep b then b
  else if negb (nonempty path) || endswith_sep path then path +:+ b
  else path +:+ "/" +:+ b.

(** [os.path.join(a, *p)] *)
Definition join (a : string) (p : list string) : string :=
  fold_left join_step p a.

(** [os.path.basename] *)
Definition basename (p : string) : string :=
  slice_from (Z.to_nat (rfind_sep p + 1)%Z) p.

(** [os.path.dirname] *)
Definition dirname (p : string) : string :=
  let head := slice_to (Z.to_nat (rfind_sep p + 1)%Z) p in
  if nonempty head && negb (all_sep head) then rstrip_sep head else head.

End PosixPath.

Import PosixPath.

(** [os.path.expanduser] with the environment it reads: [home] is the
    value of [HOME], [pw_dir] the home directory of a named user. *)
Fixpoint find_sep_from (s : string) (i : nat) : option nat :=
  match s with
  | EmptyString => None
  | String c r => if is_sep c then Some i else find_sep_from r (S i)
  end.

Definition expanduser (home : string) (pw_dir : string -> option string)
    (path : string) : string :=
  match path with
  | String "~"%char rest =>
      let i := match find_sep_from rest 1 with
               | Some i => i
               | None => String.length path
               end in
      let userhome :=
        if Nat.eqb i 1 then Some home else pw_dir (slice_to (i - 1) rest) in
      match userhome with
      | None => path
      | Some h =>
          let r := rstrip_sep h +:+ slice_from i path in
          if nonempty r then r else "/"
      end
  | _ => path
  end.

(* ===================================================================== *)
(** ** Values, bundles, exceptions, log records *)
(* ===================================================================== *)

(** The values the [Bundle] constructor can be handed: [None], a dict
    from target path to source path, or any other object, of which only
    the truth value matters. *)
Inductive pyval : Type :=
  | PyNone
  | PyDict (m : gmap string string)
  | PyOther (truth : bool).

Definition dict_is_empty (m : gmap string string) : bool :=
  bool_decide (m = ∅).

Definition truthy (v : pyval) : bool :=
  match v with
  | PyNone => false
  | PyDict m => negb (dict_is_empty m)
  | PyOther t => t
  end.

(** [a or b] *)
Definition py_or (a b : pyval) : pyval := if truthy a then a else b.

Definition is_dict (v : pyval) : Prop :=
  match v with PyDict _ => True | _ => False end.

Definition dict_or_none (v : pyval) : Prop :=
  match v with PyOther _ => False | _ => True end.

Record Bundle : Type := mkBundle { scriptmap : pyval; filemap : pyval }.

(** [Bundle.__init__(self, scriptmap=None, filemap=None)] *)
Definition Bundle_init (scriptmap filemap : pyval) : Bundle :=
  {| scriptmap := py_or scriptmap (PyDict ∅);
     filemap := py_or filemap (PyDict ∅) |}.

(** [dict(pairs)]: a later pair with the same key replaces an earlier one. *)
Definition dict_of_pairs (pairs : list (string * string)) : gmap string string :=
  fold_left (fun m kv => <[kv.1 := kv.2]> m) pairs ∅.

Inductive exn : Type :=
  | ImportError
  | KeyError (key : string)
  | IndexError
  | AttributeError
  | OSError (path : string)
  | IOError (path : string)
  | OtherError (what : string).

Inductive result (A : Type) : Type :=
  | Ok (a : A)
  | Raise (e : exn).
Arguments Ok {A} a.
Arguments Raise {A} e.

Inductive log_level : Type := DEBUG | WARNING.

Inductive log_value : Type :=
  | ArgStr (s : string)
  | ArgList (l : list string).

(** A record handed to [logger]: the level, the format string and the
    argument substituted into it. *)
Record log_record : Type :=
  mkLog { log_lvl : log_level; log_fmt : string; log_arg : log_value }.

(* ===================================================================== *)
(** ** The attribute view [DictObj] *)
(* ===================================================================== *)

Section DictObj.

(** The values of the wrapped dict and their truth value. *)
Context {V : Type} (truth : V -> bool).

(** [self.__dict__['d']] *)
Record DictObj : Type := mkDictObj { d : gmap string V }.

(** [dict.get(key)] followed by the truth test of [if]. *)
Definition get_truthy (m : gmap string V) (key : string) : bool :=
  match m !! key with
  | Some v => truth v
  | None => false
  end.

(** [DictObj.__setattr__]: the view after the write and what was logged. *)
Definition DictObj_setattr (self : DictObj) (key : string) (value : V)
    : DictObj * list log_record :=
  let warned :=
    if get_truthy (d self) key
    then [mkLog WARNING "overwriting config.{0}" (ArgStr key)]
    else [] in
  ({| d := <[key := value]> (d self) |}, warned).

(** [DictObj.__getattr__] *)
Definition DictObj_getattr (self : DictObj) (key : string) : result V :=
  match d self !! key with
  | Some v => Ok v
  | None => Raise (KeyError key)
  end.

End DictObj.

Arguments DictObj V : clear implicits.

(** *** Attribute access on the view

    Python resolves a read [view.key] by ordinary lookup first: the
    attributes of the instance (here the one attribute [d] that
    [__init__] stores) and the names that the class and its base
    [object] define.  Only a name that lookup does not find is handed to
    [__getattr__].  An assignment [view.key = value] always goes to
    [__setattr__], which the class defines. *)

(** The names the class statement of [DictObj] defines: the docstring,
    the three methods, and what every class statement adds. *)
Definition DictObj_class_names : list string :=
  ["__doc__"; "__init__"; "__setattr__"; "__getattr__";
   "__module__"; "__dict__"; "__weakref__"].

(** The names [object] defines (Python 2.7). *)
Definition object_names : list string :=
  ["__class__"; "__delattr__"; "__doc__"; "__format__"; "__getattribute__";
   "__hash__"; "__init__"; "__new__"; "__reduce__"; "__reduce_ex__";
   "__repr__"; "__setattr__"; "__sizeof__"; "__str__"; "__subclasshook__"].

Definition object_defines (name : string) : bool :=
  existsb (String.eqb name) object_names.

(** What a read of an attribute of the view yields. *)
Inductive attr_value (V : Type) : Type :=
  | Mapped (v : V)
  | Wrapped (m : gmap string V)
  | Found (name : string).
Arguments Mapped {V} v.
Arguments Wrapped {V} m.
Arguments Found {V} name.

Section AttributeAccess.

Context {V : Type}.

(** The names the base class defines. *)
Variable inherited : string -> bool.

(** Ordinary lookup finds [key] on the view. *)
Definition resolved (key : string) : bool :=
  String.eqb key "d" || existsb (String.eqb key) DictObj_class_names || inherited key.

(** [view.key]: the wrapped dict itself under the name [d], what the
    class or [object] defines under one of their names, and otherwise the
    outcome of [__getattr__]. *)
Definition attr_read (self : DictObj V) (key : string) : result (attr_value V) :=
  if String.eqb key "d" then Ok (Wrapped (d self))
  else if existsb (String.eqb key) DictObj_class_names || inherited key
       then Ok (Found key)
       else match DictObj_getattr self key with
            | Ok v => Ok (Mapped v)
            | Raise e => Raise e
            end.

(** [view.key = value] *)
Definition attr_write (truth : V -> bool) (self : DictObj V) (key : string) (value : V)
    : DictObj V * list log_record :=
  DictObj_setattr truth self key value.

End AttributeAccess.

(* ===================================================================== *)
(** ** The state of the process

    The module-level names the functions read or rebind, the interpreter's
    module search path, the working directory, the file system as the
    calls of [os] and [open] see it, and the records logged so far. *)
(* ===================================================================== *)

Record State : Type := mkState {
  PUBKEYS : list string;
  BUNDLEMAP : gmap string Bundle;
  PATH : option string;
  CODEPATH : string;
  PUBKEYSDIR : string;
  DEFAULT_TARGETDIR : string;
  sys_path : list string;
  cwd : string;
  fs_exists : string -> bool;
  fs_listdir : string -> option (list string);
  fs_read : string -> option string;
  logged : list log_record
}.

Definition set_PUBKEYS (v : list string) (s : State) : State :=
  mkState v (BUNDLEMAP s) (PATH s) (CODEPATH s) (PUBKEYSDIR s)
    (DEFAULT_TARGETDIR s) (sys_path s) (cwd s) (fs_exists s) (fs_listdir s)
    (fs_read s) (logged s).

Definition set_BUNDLEMAP (v : gmap string Bundle) (s : State) : State :=
  mkState (PUBKEYS s) v (PATH s) (CODEPATH s) (PUBKEYSDIR s)
    (DEFAULT_TARGETDIR s) (sys_path s) (cwd s) (fs_exists s) (fs_listdir s)
    (fs_read s) (logged s).

Definition set_PATH (v : option string) (s : State) : State :=
  mkState (PUBKEYS s) (BUNDLEMAP s) v (CODEPATH s) (PUBKEYSDIR s)
    (DEFAULT_TARGETDIR s) (sys_path s) (cwd s) (fs_exists s) (fs_listdir s)
    (fs_read s) (logged s).

Definition set_sys_path (v : list string) (s : State) : State :=
  mkState (PUBKEYS s) (BUNDLEMAP s) (PATH s) (CODEPATH s) (PUBKEYSDIR s)
    (DEFAULT_TARGETDIR s) v (cwd s) (fs_exists s) (fs_listdir s)
    (fs_read s) (logged s).

Definition set_logged (v : list log_record) (s : State) : State :=
  mkState (PUBKEYS s) (BUNDLEMAP s) (PATH s) (CODEPATH s) (PUBKEYSDIR s)
    (DEFAULT_TARGETDIR s) (sys_path s) (cwd s) (fs_exists s) (fs_listdir s)
    (fs_read s) v.

(* ===================================================================== *)
(** ** Statements: state passing with exceptions

    A statement maps the state before it to its outcome and the state
    after it.  An exception keeps the state reached when it was raised:
    Python undoes nothing. *)
(* ===================================================================== *)

Definition M (A : Type) : Type := State -> result A * State.

Definition ret {A} (a : A) : M A := fun s => (Ok a, s).

Definition raise {A} (e : exn) : M A := fun s => (Raise e, s).

Definition bind {A B} (m : M A) (k : A -> M B) : M B :=
  fun s =>
    match m s with
    | (Ok a, s') => k a s'
    | (Raise e, s') => (Raise e, s')
    end.

Definition get : M State := fun s => (Ok s, s).

Definition modify (f : State -> State) : M unit := fun s => (Ok tt, f s).

Definition lift {A} (r : result A) : M A := fun s => (r, s).

Declare Scope py_scope.
Delimit Scope py_scope with py.
Notation "x <- m ;; k" := (bind m (fun x => k))
  (at level 100, m at next level, k at level 200, right associativity) : py_scope.
Notation "m ;; k" := (bind m (fun _ => k))
  (at level 100, k at level 200, right associativity) : py_scope.
Local Open Scope py_scope.

(** [try: body  except ImportError: handler] *)
Definition try_except_ImportError {A} (body handler : M A) : M A :=
  fun s =>
    match body s with
    | (Raise ImportError, s') => handler s'
    | other => other
    end.

(** [try: body  finally: cleanup].  The cleanup runs on every outcome of
    the body; an exception of the cleanup replaces that outcome. *)
Definition try_finally {A} (body : M A) (cleanup : M unit) : M A :=
  fun s =>
    match body s with
    | (r, s') =>
        match cleanup s' with
        | (Ok _, s'') => (r, s'')
        | (Raise e, s'') => (Raise e, s'')
        end
    end.

(** [for x in l: body(x)] *)
Fixpoint for_each {A} (l : list A) (body : A -> M unit) : M unit :=
  match l with
  | [] => ret tt
  | x :: l' => body x;; for_each l' body
  end.

Definition logger_warn (fmt : string) (a : log_value) : M unit :=
  modify (fun s => set_logged (logged s ++ [mkLog WARNING fmt a]) s).

Definition logger_debug (fmt : string) (a : log_value) : M unit :=
  modify (fun s => set_logged (logged s ++ [mkLog DEBUG fmt a]) s).

(** [os.path.exists], [os.listdir], [open(p).read()] *)
Definition os_path_exists (p : string) : M bool :=
  fun s => (Ok (fs_exists s p), s).

Definition os_listdir (p : string) : M (list string) :=
  fun s =>
    match fs_listdir s p with
    | Some names => (Ok names, s)
    | None => (Raise (OSError p), s)
    end.

Definition open_read (p : string) : M string :=
  fun s =>
    match fs_read s p with
    | Some text => (Ok text, s)
    | None => (Raise (IOError p), s)
    end.

(** A loaded module: its name and, when it defines one, its [init]
    function applied to the view of the globals of [config]. *)
Record PyModule : Type := mkModule {
  mod_name : string;
  mod_init : option (M unit)
}.


(* ===================================================================== *)
(** ** The functions of [config.py] *)
(* ===================================================================== *)

Definition SCRIPTSDIR : string := "scripts".
Definition FILESDIR : string := "files".

(** The globals as the module body binds them, before its closing call
    of [configure]; the rest of the state is the environment's. *)
Definition initial_state (codepath : string) (path0 : list string)
    (cwd0 : string) (ex : string -> bool)
    (ls : string -> option (list string)) (rd : string -> option string)
    : State :=
  {| PUBKEYS := [];
     BUNDLEMAP := ∅;
     PATH := None;
     CODEPATH := codepath;
     PUBKEYSDIR := "pubkeys";
     DEFAULT_TARGETDIR := "/root/deploy";
     sys_path := path0;
     cwd := cwd0;
     fs_exists := ex;
     fs_listdir := ls;
     fs_read := rd;
     logged := [] |}.

(** [os.path.join(a, b, *rest)] where [a] may be [None], as [PATH] is
    until a configuration module with an [init] has been loaded: the
    first round of the loop asks [a] for [endswith] unless [b] is
    absolute. *)
Definition join_any (a : option string) (b : string) (rest : list string)
    : result string :=
  if startswith_sep b then Ok (join b rest)
  else match a with
       | Some path => Ok (join path (b :: rest))
       | None => Raise AttributeError
       end.

Fixpoint map_result {A B} (f : A -> result B) (l : list A) : result (list B) :=
  match l with
  | [] => Ok []
  | x :: l' =>
      match f x with
      | Raise e => Raise e
      | Ok y =>
          match map_result f l' with
          | Raise e => Raise e
          | Ok ys => Ok (y :: ys)
          end
      end
  end.

(** [makemap(filenames, sourcedir, targetdir=None)] *)
Definition makemap (filenames : list string) (sourcedir : string)
    (targetdir : option string) : M (gmap string string) :=
  s <- get;;
  let targetdir := default (DEFAULT_TARGETDIR s) targetdir in
  ret (dict_of_pairs
         (map (fun f => (join targetdir [f], join sourcedir [f])) filenames)).

(** [new_bundle(name, scriptmap, filemap=None)] *)
Definition new_bundle (name : string) (scriptmap filemap : pyval) : M unit :=
  s <- get;;
  (if bool_decide (is_Some (BUNDLEMAP s !! name))
   then logger_warn "overwriting bundle %s" (ArgStr name)
   else ret tt);;
  modify (fun s => set_BUNDLEMAP (<[name := Bundle_init scriptmap filemap]> (BUNDLEMAP s)) s).

(** [add_bundle(name, scripts, files, scriptsdir, filesdir)] *)
Definition add_bundle (name : string) (scripts files : list string)
    (scriptsdir filesdir : string) : M unit :=
  s <- get;;
  sdir <- lift (join_any (PATH s) scriptsdir []);;
  scriptmap <- makemap scripts sdir None;;
  s <- get;;
  sources <- lift (map_result
                     (fun f => join_any (PATH s) filesdir [basename f]) files);;
  let filemap := dict_of_pairs (zip files sources) in
  new_bundle name (PyDict scriptmap) (PyDict filemap).

(** [normalize_path(path)]; the first argument is the global [CODEPATH]
    the function reads. *)
Definition normalize_path (codepath : string) (path : string) : string :=
  if isabs path then path else join codepath [path].

(** [load_pubkeys(loadpath, pubkeys)].  The list the caller passes is the
    one [PUBKEYS] names, and [append] changes it in place: what has been
    appended stays when a later [open] fails. *)
Definition load_pubkeys (loadpath : string) : M unit :=
  filenames <- os_listdir loadpath;;
  logger_debug "loading authorized pubkeys {0}" (ArgList filenames);;
  for_each filenames (fun filename =>
    text <- open_read (join loadpath [filename]);;
    modify (fun s => set_PUBKEYS (PUBKEYS s ++ [text]) s)).

(** [del sys.path[-1]] *)
Definition del_sys_path_last : M unit :=
  s <- get;;
  match sys_path s with
  | [] => raise IndexError
  | _ => modify (fun s => set_sys_path (removelast (sys_path s)) s)
  end.

(** The body of the loop of [configure] up to the call of [init_module]. *)
Definition collect_pubkeys (path : string) : M unit :=
  logger_debug "configuration path {0}" (ArgStr path);;
  s <- get;;
  let pubkeys_path := join path [PUBKEYSDIR s] in
  present <- os_path_exists pubkeys_path;;
  if present then load_pubkeys pubkeys_path else ret tt.

Section Driver.

(** [__import__(name)]: finds the module along [sys.path] and runs its
    body, which is code of the site; it returns the module or raises. *)
Variable import_ : string -> M PyModule.

(** [import_by_path(path)]; [None] is the value of a call that falls
    off the end of the [except] clause. *)
Definition import_by_path (path : string) : M (option PyModule) :=
  modify (fun s => set_sys_path (sys_path s ++ [dirname path]) s);;
  try_finally
    (try_except_ImportError
       (m <- import_ (basename path);; ret (Some m))
       (logger_warn "unable to import {0}" (ArgStr path);; ret None))
    del_sys_path_last.

(** [init_module(path)] *)
Definition init_module (path : string) : M unit :=
  m <- import_by_path path;;
  match m with
  | Some m =>
      match mod_init m with
      | Some init =>
          logger_debug "calling init on {0}" (ArgStr (mod_name m));;
          modify (set_PATH (Some path));;
          init
      | None => ret tt
      end
  | None => ret tt
  end.

(** The body of the loop of [configure]. *)
Definition configure_path (path : string) : M unit :=
  collect_pubkeys path;;
  init_module path.

(** [configure(paths)] *)
Definition configure (paths : list string) : M unit :=
  match paths with
  | [] => ret tt
  | _ =>
      s <- get;;
      for_each (map (normalize_path (CODEPATH s)) paths) configure_path
  end.

(** [configure_cwd(paths)] *)
Definition configure_cwd (paths : list string) : M unit :=
  s <- get;;
  configure (map (fun p => join (cwd s) [p])
                 (List.filter (fun p => negb (isabs p)) paths)).

(** The statements that close the module body: the default
    configuration directories, then the one under the home directory when
    it exists. *)
Definition LOCAL_DEFAULTS (home : string) (pw_dir : string -> option string) : string :=
  expanduser home pw_dir "~/.provision/secrets".

Definition module_body (home : string) (pw_dir : string -> option string) : M unit :=
  present <- os_path_exists (LOCAL_DEFAULTS home pw_dir);;
  configure (["defaults"; "secrets"]
               ++ (if present then [LOCAL_DEFAULTS home pw_dir] else [])).

End Driver.


(** *** Random names and the command line *)

(** What [random.sample(population, k)] may draw: [k] positions of the
    population, no position twice. *)
Definition drawn (n k : nat) (choice : list nat) : Prop :=
  length choice = k /\ NoDup choice /\ Forall (fun i => i < n) choice.

(** [random.sample(population, k)], given the positions it draws; it
    raises [ValueError] when [k] is negative or exceeds the population. *)
Definition random_sample {A} (population : list A) (k : Z) (choice : list nat)
    : result (list A) :=
  if ((0 <=? k)%Z && (k <=? Z.of_nat (length population))%Z)%bool
  then Ok (omap (fun i => population !! i) choice)
  else Raise (OtherError "ValueError").

Definition ascii_lowercase : string := "abcdefghijklmnopqrstuvwxyz".
Definition digits : string := "0123456789".

(** [random_str(length=6, charspace=string.ascii_lowercase+string.digits)] *)
Definition random_str (length : Z) (charspace : string) (choice : list nat)
    : result string :=
  match random_sample (list_ascii_of_string charspace) length choice with
  | Ok chars => Ok (string_of_list_ascii chars)
  | Raise e => Raise e
  end.

Section Reconfig.

(** The first pass, [parser().parse_known_args()]: the values given
    with [-c/--config_paths], in their order, and the arguments it does
    not know; a command line it rejects ends the program. *)
Variable parse_config_paths : list string -> result (list string * list string).

Variable import_ : string -> M PyModule.

(** The values the second pass returns. *)
Variable Namespace : Type.

(** [reconfig(main_parser)] on the command line [argv].  The caller's
    [main_parser] is run after the configuration: it builds its parser in
    the state the configuration modules have left, and the parser it
    returns is applied to the remaining arguments. *)
Definition reconfig (main_parser : M (list string -> result Namespace))
    (argv : list string) : M Namespace :=
  parsed <- lift (parse_config_paths argv);;
  configure_cwd import_ parsed.1;;
  parse_args <- main_parser;;
  lift (parse_args parsed.2).

End Reconfig.

(* ===================================================================== *)
(** ** Auxiliary definitions of the statements below *)
(* ===================================================================== *)

(** *** States reached inside [import_by_path] and [init_module] *)

(** The state in which [import_by_path] starts the import. *)
Definition importing (path : string) (s : State) : State :=
  set_sys_path (sys_path s ++ [dirname path]) s.

Definition warned_import (path : string) (s : State) : State :=
  set_logged (logged s ++ [mkLog WARNING "unable to import {0}" (ArgStr path)]) s.

Definition popped (s : State) : State :=
  set_sys_path (removelast (sys_path s)) s.

(** The state in which [init_module] calls the [init] of module [m]. *)
Definition calling_init (path : string) (m : PyModule) (s : State) : State :=
  set_PATH (Some path)
    (set_logged (logged s ++ [mkLog DEBUG "calling init on {0}" (ArgStr (mod_name m))]) s).

(** *** Names with and without separators *)

(** [s] contains a separator. *)
Fixpoint has_sep (s : string) : bool :=
  match s with
  | EmptyString => false
  | String c r => is_sep c || has_sep r
  end.

(** *** States reached inside [configure] and [load_pubkeys] *)

Definition logged_path (path : string) (s : State) : State :=
  set_logged (logged s ++ [mkLog DEBUG "configuration path {0}" (ArgStr path)]) s.

Definition logged_listing (names : list string) (s : State) : State :=
  set_logged (logged s ++ [mkLog DEBUG "loading authorized pubkeys {0}" (ArgList names)]) s.

(** *** Relations a run keeps *)

Definition keeps {A} (R : relation State) (m : M A) : Prop :=
  forall s, R s (m s).2.

(** The code of the site keeps [R]: every import does, and so does the
    [init] of every module an import returns. *)
Definition site_keeps (R : relation State) (import_ : string -> M PyModule) : Prop :=
  (forall name, keeps R (import_ name)) /\
  (forall name s m s' init,
      import_ name s = (Ok m, s') -> mod_init m = Some init -> keeps R init).

Definition pubkeys_grow : relation State :=
  fun s s' => PUBKEYS s `prefix_of` PUBKEYS s'.

Definition sys_path_same : relation State :=
  fun s s' => sys_path s' = sys_path s.

Definition PATH_same : relation State := fun s s' => PATH s' = PATH s.

(** [PATH] is the one before, or one of the directories [dirs]. *)
Definition PATH_among (dirs : list string) : relation State :=
  fun s s' => PATH s' = PATH s \/ exists dir, dir ∈ dirs /\ PATH s' = Some dir.

(** The part of the state that [configure] only reads: the registry, the
    configured directories, the working directory and the file system. *)
Definition only_read (s : State) :=
  (BUNDLEMAP s, CODEPATH s, PUBKEYSDIR s, DEFAULT_TARGETDIR s, cwd s,
   fs_exists s, fs_listdir s, fs_read s).

Definition only_read_same : relation State :=
  fun s s' => only_read s' = only_read s.

(** *** The registry as a sequence of calls *)

(** The calls that store into [BUNDLEMAP]. *)
Inductive reg_op : Type :=
  | OpNew (name : string) (scriptmap filemap : pyval)
  | OpAdd (name : string) (scripts files : list string) (scriptsdir filesdir : string).

Definition run_op (op : reg_op) : M unit :=
  match op with
  | OpNew name sm fm => new_bundle name sm fm
  | OpAdd name scripts files sd fd => add_bundle name scripts files sd fd
  end.

(** The arguments are of the documented types: a dict, or [None]. *)
Definition op_typed (op : reg_op) : Prop :=
  match op with
  | OpNew _ sm fm => dict_or_none sm /\ dict_or_none fm
  | OpAdd _ _ _ _ _ => True
  end.

Definition bundle_ok (b : Bundle) : Prop :=
  is_dict (scriptmap b) /\ is_dict (filemap b).

Definition registry_ok (reg : gmap string Bundle) : Prop :=
  forall name b, reg !! name = Some b -> bundle_ok b.

(** [configure_relative_to_cwd] as the specification words it: every path
    is handed to [configure], a relative one joined to the working
    directory first. *)
Definition configure_relative_to_cwd_spec (import_ : string -> M PyModule)
    (paths : list string) : M unit :=
  s <- get;;
  configure import_
    (map (fun p => if isabs p then p else join (cwd s) [p]) paths).

(** *** A site to run the functions on *)

(** The [init] of the module [site]: it registers a bundle relative to
    the directory it was loaded from. *)
Definition site_init : M unit :=
  add_bundle "web" ["setup.sh"] ["/etc/app.conf"] SCRIPTSDIR FILESDIR.

(** An import mechanism that knows four names: [site] has an [init],
    [consts] has none, the body of [crash] raises an error of its own, the
    body of [pathy] appends a directory to [sys.path]; any other name is
    not found. *)
Definition site_import (name : string) : M PyModule :=
  if String.eqb name "site" then ret (mkModule "site" (Some site_init))
  else if String.eqb name "consts" then ret (mkModule "consts" None)
  else if String.eqb name "crash" then raise (OtherError "NameError")
  else if String.eqb name "pathy" then
    modify (fun s => set_sys_path (sys_path s ++ ["/opt/lib"]) s);;
    ret (mkModule "pathy" None)
  else raise ImportError.

Definition site_state : State :=
  initial_state "/opt/provision" ["/usr/lib/python"] "/home/alice"
    (fun _ => false) (fun _ => None) (fun _ => None).

(** The same site with two public keys in [/etc/site/pubkeys]. *)
Definition keys_state : State :=
  initial_state "/opt/provision" ["/usr/lib/python"] "/home/alice"
    (fun p => String.eqb p "/etc/site/pubkeys")
    (fun p => if String.eqb p "/etc/site/pubkeys" then Some ["a.pub"; "b.pub"] else None)
    (fun p => if String.eqb p "/etc/site/pubkeys/a.pub" then Some "ssh-rsa AAAA alice"
              else if String.eqb p "/etc/site/pubkeys/b.pub" then Some "ssh-rsa BBBB bob"
              else None).

(** An import mechanism whose only module is [site]. *)
Definition plain_import (name : string) : M PyModule :=
  if String.eqb name "site" then ret (mkModule "site" (Some site_init))
  else raise ImportError.

(** An import mechanism whose only module is [consts], without [init]. *)
Definition consts_import (name : string) : M PyModule :=
  if String.eqb name "consts" then ret (mkModule "consts" None)
  else raise ImportError.

(** The same site, where the second key cannot be read. *)
Definition broken_keys_state : State :=
  initial_state "/opt/provision" ["/usr/lib/python"] "/home/alice"
    (fun p => String.eqb p "/etc/site/pubkeys")
    (fun p => if String.eqb p "/etc/site/pubkeys"
              then Some ["a.pub"; "b.pub"; "c.pub"] else None)
    (fun p => if String.eqb p "/etc/site/pubkeys/a.pub" then Some "ssh-rsa AAAA alice"
              else if String.eqb p "/etc/site/pubkeys/c.pub" then Some "ssh-rsa CCCC carol"
              else None).

(** A site where [pubkeys] is a regular file. *)
Definition odd_keys_state : State :=
  initial_state "/opt/provision" ["/usr/lib/python"] "/home/alice"
    (fun p => String.eqb p "/etc/site/pubkeys") (fun _ => None) (fun _ => None).

(** An import mechanism whose modules all empty [sys.path] and then
    fail to import something themselves. *)
Definition emptying_import (name : string) : M PyModule :=
  modify (set_sys_path []);;
  raise ImportError.

(** A view over globals that hold the module docstring and one default,
    as those of [config] do. *)
Definition globals_view : DictObj pyval :=
  {| d := <["__doc__" := PyOther true]> {[ "DEFAULT_SIZE_ID" := PyOther false ]} |}.

(** A state with one bundle registered and a base path set, as after a
    configuration module at [/srv/bundles] has been loaded. *)
Definition demo_state : State :=
  set_PATH (Some "/srv/bundles")
    (set_BUNDLEMAP {[ "web" := mkBundle (PyDict {[ "/root/deploy/old.sh" := "/x/old.sh" ]})
                                        (PyDict ∅) ]}
       (initial_state "/opt/provision" ["/usr/lib/python"] "/home/alice"
          (fun _ => false) (fun _ => None) (fun _ => None))).

(** A view over a dict with one key, whose value tests false. *)
Definition demo_view : DictObj pyval :=
  {| d := {[ "DEFAULT_SIZE_ID" := PyOther false ]} |}.


(* ===================================================================== *)
(** ** Path resolution *)
(* ===================================================================== *)

Example join_ex1 : join "/srv/bundles" ["files"; "app.conf"] = "/srv/bundles/files/app.conf".
Proof. reflexivity. Qed.
Example join_ex2 : join "/a/" ["b"] = "/a/b" /\ join "/a" ["/b"] = "/b" /\ join "" ["b"] = "b".
Proof. repeat split. Qed.
Example basename_ex : basename "/etc/app.conf" = "app.conf" /\ basename "x" = "x" /\ basename "/a/" = "".
Proof. repeat split. Qed.
Example dirname_ex :
  dirname "/etc/app.conf" = "/etc" /\ dirname "x" = "" /\ dirname "/x" = "/" /\ dirname "/a//b" = "/a".
Proof. repeat split. Qed.

Example expanduser_ex :
  expanduser "/home/alice" (fun _ => None) "~" = "/home/alice" /\
  expanduser "/home/alice/" (fun _ => None) "~/.provision/secrets"
    = "/home/alice/.provision/secrets" /\
  expanduser "/home/alice" (fun _ => None) "~bob/x" = "~bob/x" /\
  expanduser "/home/alice" (fun _ => Some "/home/bob") "~bob/x" = "/home/bob/x".
Proof. repeat split. Qed.

Lemma join_one_relative (b p : string) :
  isabs p = false ->
  join b [p] = if negb (nonempty b) || endswith_sep b then b +:+ p
               else b +:+ "/" +:+ p.
Proof.
  intros Hp. unfold join, join_step; simpl.
  unfold isabs in Hp. now rewrite Hp.
Qed.

Lemma isabs_app (a b : string) : isabs a = true -> isabs (a +:+ b) = true.
Proof. destruct a; simpl; [discriminate | trivial]. Qed.

(** A path resolved against an absolute base is absolute. *)
Lemma normalize_path_absolute (b p : string) :
  isabs b = true -> isabs (normalize_path b p) = true.
Proof.
  intros Hb. unfold normalize_path.
  destruct (isabs p) eqn:Hp; [exact Hp |].
  rewrite join_one_relative by exact Hp.
  destruct (negb (nonempty b) || endswith_sep b); now apply isabs_app.
Qed.

Lemma normalize_path_absolute_witness :
  isabs "/opt/provision" = true /\
  isabs (normalize_path "/opt/provision" "defaults") = true.
Proof.
  split; [reflexivity |].
  apply (normalize_path_absolute "/opt/provision" "defaults"). reflexivity.
Defined.

(** C7: for every path [p] and base directory [b] (the global [CODEPATH]
    that [normalize_path] reads), an absolute [p] is returned unchanged,
    whatever the base, and a relative [p] is returned joined to the base.
    The function is total: a string computation without error cases. *)
Theorem normalize_path_spec (p : string) :
  (isabs p = true -> forall b, normalize_path b p = p) /\
  (isabs p = false -> forall b, normalize_path b p = join b [p]).
Proof.
  unfold normalize_path. split; intros Hp b; now rewrite Hp.
Qed.

Lemma normalize_path_spec_witness :
  (isabs "/foo/bar" = true /\ normalize_path "/baz" "/foo/bar" = "/foo/bar") /\
  (isabs "foo/bar" = false /\ normalize_path "/baz" "foo/bar" = "/baz/foo/bar").
Proof.
  split; (split; [reflexivity |]).
  - apply (proj1 (normalize_path_spec "/foo/bar")). reflexivity.
  - apply (proj2 (normalize_path_spec "foo/bar") eq_refl "/baz").
Defined.

(** C2: [normalize_path] does not expand the home directory.  The path
    ['~'] is relative, so it is joined to the base like any other name:
    with base ['/baz'] the result is ['/baz/~'], where the test
    [test_normalize_path_user] of the repository expects
    [os.path.expanduser('~')]. *)
Theorem normalize_path_tilde_joined :
  (forall b, normalize_path b "~" = join b ["~"]) /\
  normalize_path "/baz" "~" = "/baz/~" /\
  expanduser "/home/alice" (fun _ => None) "~" = "/home/alice" /\
  normalize_path "/baz" "~" <> expanduser "/home/alice" (fun _ => None) "~".
Proof.
  repeat split. discriminate.
Qed.

(* ===================================================================== *)
(** ** Bundles and the registry *)
(* ===================================================================== *)

Lemma py_or_dict (m : gmap string string) : py_or (PyDict m) (PyDict ∅) = PyDict m.
Proof.
  unfold py_or, truthy, dict_is_empty.
  case_bool_decide as Hm; simpl; [now rewrite Hm | reflexivity].
Qed.

Lemma py_or_not_None (v : pyval) : py_or v (PyDict ∅) <> PyNone.
Proof. unfold py_or. destruct v as [| m | []]; simpl; try destruct (dict_is_empty m); discriminate. Qed.

Lemma py_or_is_dict (v : pyval) : dict_or_none v -> is_dict (py_or v (PyDict ∅)).
Proof.
  destruct v as [| m | t]; simpl; intros H; [exact I | | destruct H].
  now rewrite py_or_dict.
Qed.

Lemma Bundle_init_dicts (m1 m2 : gmap string string) :
  Bundle_init (PyDict m1) (PyDict m2) = mkBundle (PyDict m1) (PyDict m2).
Proof. unfold Bundle_init. now rewrite !py_or_dict. Qed.

(** What [new_bundle] does to the state, by whether the name is taken. *)
Lemma new_bundle_run (name : string) (sm fm : pyval) (s : State) :
  new_bundle name sm fm s =
    (Ok tt,
     let s1 := if bool_decide (is_Some (BUNDLEMAP s !! name))
               then set_logged
                      (logged s ++ [mkLog WARNING "overwriting bundle %s" (ArgStr name)]) s
               else s in
     set_BUNDLEMAP (<[name := Bundle_init sm fm]> (BUNDLEMAP s1)) s1).
Proof.
  unfold new_bundle, bind, get. case_bool_decide; reflexivity.
Qed.

Lemma new_bundle_lookup (name : string) (sm fm : pyval) (s : State) :
  BUNDLEMAP (new_bundle name sm fm s).2 !! name = Some (Bundle_init sm fm).
Proof.
  rewrite new_bundle_run. cbn. case_bool_decide; cbn; apply lookup_insert_eq.
Qed.

Lemma new_bundle_lookup_ne (name other : string) (sm fm : pyval) (s : State) :
  name <> other ->
  BUNDLEMAP (new_bundle name sm fm s).2 !! other = BUNDLEMAP s !! other.
Proof.
  intros Hne. rewrite new_bundle_run. cbn.
  case_bool_decide; cbn; now rewrite lookup_insert_ne.
Qed.

(** C5: registering under a name the registry already holds does not
    raise; a warning is logged and the name afterwards maps to a Bundle
    holding exactly the new scriptmap and filemap, whatever the old
    Bundle held.  The other names keep their Bundles. *)
Theorem new_bundle_overwrites
    (s : State) (name : string) (old : Bundle) (sm fm : gmap string string) :
  BUNDLEMAP s !! name = Some old ->
  let out := new_bundle name (PyDict sm) (PyDict fm) s in
  out.1 = Ok tt /\
  BUNDLEMAP out.2 !! name = Some (mkBundle (PyDict sm) (PyDict fm)) /\
  (forall other, other <> name -> BUNDLEMAP out.2 !! other = BUNDLEMAP s !! other) /\
  logged out.2 = logged s ++ [mkLog WARNING "overwriting bundle %s" (ArgStr name)].
Proof.
  intros Hold out. subst out. repeat split.
  - now rewrite new_bundle_run.
  - rewrite new_bundle_lookup. now rewrite Bundle_init_dicts.
  - intros other Hne. now apply new_bundle_lookup_ne.
  - rewrite new_bundle_run. cbn.
    rewrite bool_decide_eq_true_2 by (rewrite Hold; eauto). reflexivity.
Qed.

Lemma new_bundle_overwrites_witness :
  BUNDLEMAP demo_state !! "web"
    = Some (mkBundle (PyDict {[ "/root/deploy/old.sh" := "/x/old.sh" ]}) (PyDict ∅)) /\
  (new_bundle "web" (PyDict {[ "/root/deploy/new.sh" := "/y/new.sh" ]}) (PyDict ∅) demo_state).1
    = Ok tt /\
  BUNDLEMAP
    (new_bundle "web" (PyDict {[ "/root/deploy/new.sh" := "/y/new.sh" ]}) (PyDict ∅) demo_state).2
    !! "web"
    = Some (mkBundle (PyDict {[ "/root/deploy/new.sh" := "/y/new.sh" ]}) (PyDict ∅)).
Proof.
  split; [reflexivity |].
  pose proof (new_bundle_overwrites demo_state "web"
                (mkBundle (PyDict {[ "/root/deploy/old.sh" := "/x/old.sh" ]}) (PyDict ∅))
                {[ "/root/deploy/new.sh" := "/y/new.sh" ]} ∅ eq_refl) as H.
  split; [exact (proj1 H) | exact (proj1 (proj2 H))].
Defined.

Lemma join_any_Some (path b : string) (rest : list string) :
  join_any (Some path) b rest = Ok (join path (b :: rest)).
Proof.
  unfold join_any. destruct (startswith_sep b) eqn:Hb; [| reflexivity].
  unfold join; simpl. f_equal. f_equal. unfold join_step. now rewrite Hb.
Qed.

Lemma map_result_Ok {A B} (f : A -> result B) (g : A -> B) (l : list A) :
  (forall x, f x = Ok (g x)) -> map_result f l = Ok (map g l).
Proof.
  intros Hf. induction l as [| x l IH]; simpl; [reflexivity |].
  now rewrite Hf, IH.
Qed.

(** With a base path set, [add_bundle] is [new_bundle] on the two maps
    it builds. *)
Lemma add_bundle_with_PATH (name : string) (scripts files : list string)
    (sd fd path : string) (s : State) :
  PATH s = Some path ->
  add_bundle name scripts files sd fd s =
    new_bundle name
      (PyDict (dict_of_pairs
                 (map (fun f => (join (DEFAULT_TARGETDIR s) [f], join (join path [sd]) [f]))
                      scripts)))
      (PyDict (dict_of_pairs
                 (zip files (map (fun f => join path [fd; basename f]) files))))
      s.
Proof.
  intros HP. unfold add_bundle, bind, get, lift, makemap, ret. simpl.
  rewrite HP, join_any_Some.
  rewrite (map_result_Ok _ (fun f => join path [fd; basename f]))
    by (intros x; apply join_any_Some).
  reflexivity.
Qed.

(** C3: with base path [/srv/bundles] (the global [PATH]) and target
    directory [/root/deploy] (the global [DEFAULT_TARGETDIR]),
    [add_bundle('web', ['setup.sh'], ['/etc/app.conf'], 'scripts', 'files')]
    returns normally and stores under ['web'] the Bundle whose scriptmap is
    [{'/root/deploy/setup.sh': '/srv/bundles/scripts/setup.sh'}] and whose
    filemap is [{'/etc/app.conf': '/srv/bundles/files/app.conf'}]. *)
Theorem add_bundle_web (s : State) :
  PATH s = Some "/srv/bundles" ->
  DEFAULT_TARGETDIR s = "/root/deploy" ->
  let out := add_bundle "web" ["setup.sh"] ["/etc/app.conf"] "scripts" "files" s in
  out.1 = Ok tt /\
  BUNDLEMAP out.2 !! "web" =
    Some (mkBundle
            (PyDict {[ "/root/deploy/setup.sh" := "/srv/bundles/scripts/setup.sh" ]})
            (PyDict {[ "/etc/app.conf" := "/srv/bundles/files/app.conf" ]})).
Proof.
  intros HP HT out. subst out.
  rewrite (add_bundle_with_PATH _ _ _ _ _ _ _ HP), HT.
  split; [now rewrite new_bundle_run |].
  rewrite new_bundle_lookup, Bundle_init_dicts.
  reflexivity.
Qed.

Lemma add_bundle_web_witness :
  (PATH demo_state = Some "/srv/bundles" /\
   DEFAULT_TARGETDIR demo_state = "/root/deploy") /\
  BUNDLEMAP
    (add_bundle "web" ["setup.sh"] ["/etc/app.conf"] SCRIPTSDIR FILESDIR demo_state).2
    !! "web" =
    Some (mkBundle
            (PyDict {[ "/root/deploy/setup.sh" := "/srv/bundles/scripts/setup.sh" ]})
            (PyDict {[ "/etc/app.conf" := "/srv/bundles/files/app.conf" ]})).
Proof.
  split; [split; reflexivity |].
  exact (proj2 (add_bundle_web demo_state eq_refl eq_refl)).
Defined.

(** *** What the registry holds *)

Lemma Bundle_init_ok (sm fm : pyval) :
  dict_or_none sm -> dict_or_none fm -> bundle_ok (Bundle_init sm fm).
Proof. intros Hs Hf. split; simpl; now apply py_or_is_dict. Qed.

Lemma registry_ok_insert (reg : gmap string Bundle) (name : string) (b : Bundle) :
  registry_ok reg -> bundle_ok b -> registry_ok (<[name := b]> reg).
Proof.
  intros Hreg Hb other b' Hlook.
  destruct (decide (name = other)) as [-> | Hne].
  - rewrite lookup_insert_eq in Hlook. now inversion Hlook; subst.
  - rewrite lookup_insert_ne in Hlook by exact Hne. eauto.
Qed.

Lemma new_bundle_keeps_ok (name : string) (sm fm : pyval) (s : State) :
  dict_or_none sm -> dict_or_none fm ->
  registry_ok (BUNDLEMAP s) ->
  registry_ok (BUNDLEMAP (new_bundle name sm fm s).2).
Proof.
  intros Hs Hf Hreg. rewrite new_bundle_run. cbn.
  case_bool_decide; cbn; apply registry_ok_insert; auto using Bundle_init_ok.
Qed.

Lemma add_bundle_keeps_ok (name : string) (scripts files : list string)
    (sd fd : string) (s : State) :
  registry_ok (BUNDLEMAP s) ->
  registry_ok (BUNDLEMAP (add_bundle name scripts files sd fd s).2).
Proof.
  intros Hreg. unfold add_bundle, bind, get, lift, makemap, ret. simpl.
  destruct (join_any (PATH s) sd []) as [sdir | e]; [| exact Hreg].
  destruct (map_result _ files) as [sources | e]; [| exact Hreg].
  now apply new_bundle_keeps_ok.
Qed.

Lemma run_op_keeps_ok (op : reg_op) (s : State) :
  op_typed op -> registry_ok (BUNDLEMAP s) -> registry_ok (BUNDLEMAP (run_op op s).2).
Proof.
  destruct op as [name sm fm | name scripts files sd fd]; simpl.
  - intros [Hs Hf]. now apply new_bundle_keeps_ok.
  - intros _. apply add_bundle_keeps_ok.
Qed.

Lemma for_each_run_op_keeps_ok (ops : list reg_op) :
  Forall op_typed ops ->
  forall s, registry_ok (BUNDLEMAP s) ->
            registry_ok (BUNDLEMAP (for_each ops run_op s).2).
Proof.
  induction 1 as [| op ops Hop _ IH]; intros s Hreg; [exact Hreg |].
  simpl. unfold bind.
  pose proof (run_op_keeps_ok op s Hop Hreg) as Hstep.
  destruct (run_op op s) as [[[] | e] s']; simpl in *; [now apply IH | exact Hstep].
Qed.

(** C9: a Bundle never has [None] for its scriptmap or its filemap.
    Whatever the constructor is handed, neither field is [None]; handed
    [None] (the default, as when [new_bundle] is called without a
    filemap) a field is the empty dict; handed dicts or [None], both
    fields are dicts.  Hence every Bundle stored by a sequence of
    [new_bundle] and [add_bundle] calls, started from a registry where
    this holds (the empty one of the module body does), has a dict in
    both fields, whether or not a call of the sequence raises. *)
Theorem bundle_maps_never_None :
  (forall sm fm, scriptmap (Bundle_init sm fm) <> PyNone /\
                 filemap (Bundle_init sm fm) <> PyNone) /\
  (forall fm, scriptmap (Bundle_init PyNone fm) = PyDict ∅) /\
  (forall sm, filemap (Bundle_init sm PyNone) = PyDict ∅) /\
  (forall name sm s,
      filemap <$> (BUNDLEMAP (new_bundle name (PyDict sm) PyNone s).2 !! name)
      = Some (PyDict ∅)) /\
  (forall sm fm, dict_or_none sm -> dict_or_none fm -> bundle_ok (Bundle_init sm fm)) /\
  registry_ok (∅ : gmap string Bundle) /\
  (forall ops s,
      Forall op_typed ops ->
      registry_ok (BUNDLEMAP s) ->
      registry_ok (BUNDLEMAP (for_each ops run_op s).2)).
Proof.
  refine (conj _ (conj _ (conj _ (conj _ (conj _ (conj _ _)))))).
  - intros sm fm. split; apply py_or_not_None.
  - reflexivity.
  - reflexivity.
  - intros name sm s. now rewrite new_bundle_lookup.
  - apply Bundle_init_ok.
  - intros name b Hl. rewrite lookup_empty in Hl. discriminate.
  - intros ops s Hops Hreg. now apply for_each_run_op_keeps_ok.
Qed.

Lemma bundle_maps_never_None_witness :
  registry_ok
    (BUNDLEMAP
       (for_each [OpNew "db" (PyDict {[ "/root/deploy/db.sh" := "/srv/db.sh" ]}) PyNone;
                  OpAdd "web" ["setup.sh"] ["/etc/app.conf"] SCRIPTSDIR FILESDIR]
          run_op demo_state).2).
Proof.
  apply (proj2 (proj2 (proj2 (proj2 (proj2 (proj2 bundle_maps_never_None)))))).
  - repeat constructor.
  - intros name b. unfold demo_state; simpl.
    intros Hl. apply lookup_singleton_Some in Hl as [_ <-]. split; exact I.
Defined.

(* ===================================================================== *)
(** ** The attribute view *)
(* ===================================================================== *)

Lemma DictObj_getattr_Some {V} (self : DictObj V) (key : string) (v : V) :
  d self !! key = Some v -> DictObj_getattr self key = Ok v.
Proof. unfold DictObj_getattr. now intros ->. Qed.

Lemma DictObj_getattr_None {V} (self : DictObj V) (key : string) :
  d self !! key = None -> DictObj_getattr self key = Raise (KeyError key).
Proof. unfold DictObj_getattr. now intros ->. Qed.

(** A write warns exactly when the key held a value that tests true. *)
Lemma DictObj_setattr_logs {V} (truth : V -> bool) (self : DictObj V)
    (key : string) (value : V) :
  (DictObj_setattr truth self key value).2 =
    if get_truthy truth (d self) key
    then [mkLog WARNING "overwriting config.{0}" (ArgStr key)]
    else [].
Proof. reflexivity. Qed.

(** The two hooks of [DictObj].  Called with [key], [__getattr__]
    returns the value the wrapped dict maps [key] to, and raises
    [KeyError] when the dict has no such key; [__setattr__] sets [key] to
    the written value in the wrapped dict, whether or not the key was
    there, so that [__getattr__] then returns it for [key] and returns
    what it did before for the other keys. *)
Theorem DictObj_read_write {V} (truth : V -> bool) (self : DictObj V) (key : string) :
  (forall v, d self !! key = Some v -> DictObj_getattr self key = Ok v) /\
  (d self !! key = None -> DictObj_getattr self key = Raise (KeyError key)) /\
  (forall value,
      let self' := (DictObj_setattr truth self key value).1 in
      d self' = <[key := value]> (d self) /\
      DictObj_getattr self' key = Ok value /\
      (forall other, other <> key ->
                     DictObj_getattr self' other = DictObj_getattr self other)).
Proof.
  refine (conj _ (conj _ _)).
  - intros v. apply DictObj_getattr_Some.
  - apply DictObj_getattr_None.
  - intros value self'. subst self'. simpl.
    refine (conj eq_refl (conj _ _)).
    + apply DictObj_getattr_Some. simpl. apply lookup_insert_eq.
    + intros other Hne. unfold DictObj_getattr; simpl.
      now rewrite lookup_insert_ne by congruence.
Qed.

Lemma DictObj_read_write_witness :
  DictObj_getattr demo_view "DEFAULT_SIZE_ID" = Ok (PyOther false) /\
  DictObj_getattr demo_view "DEFAULT_USERID" = Raise (KeyError "DEFAULT_USERID") /\
  DictObj_getattr (DictObj_setattr truthy demo_view "DEFAULT_USERID" (PyOther true)).1
    "DEFAULT_USERID" = Ok (PyOther true).
Proof.
  refine (conj _ (conj _ _)).
  - apply (proj1 (DictObj_read_write truthy demo_view "DEFAULT_SIZE_ID")). reflexivity.
  - apply (proj1 (proj2 (DictObj_read_write truthy demo_view "DEFAULT_USERID"))). reflexivity.
  - apply (proj2 (DictObj_read_write truthy demo_view "DEFAULT_USERID")).
Defined.

Lemma resolved_false {V} (inherited : string -> bool) (self : DictObj V) (key : string) :
  resolved inherited key = false ->
  attr_read inherited self key =
    match DictObj_getattr self key with
    | Ok v => Ok (Mapped v)
    | Raise e => Raise e
    end.
Proof.
  unfold resolved, attr_read. intros H.
  apply orb_false_iff in H as [H Hinh]. apply orb_false_iff in H as [Hd Hcls].
  now rewrite Hd, Hcls, Hinh.
Qed.

Lemma resolved_true {V} (inherited : string -> bool) (self : DictObj V) (key : string) :
  resolved inherited key = true ->
  attr_read inherited self key = Ok (Wrapped (d self)) \/
  attr_read inherited self key = Ok (Found key).
Proof.
  unfold resolved, attr_read. intros H.
  destruct (String.eqb key "d"); [now left |]. cbn [orb] in H.
  rewrite H. now right.
Qed.

(** C8, as the code has it: for every [DictObj] view and every key that
    ordinary attribute lookup does not resolve on the view (every key
    but [d], the names of the class statement and the names of [object],
    [__doc__] and [__class__] among them), an attribute read returns the
    value mapped to the key when the key is present and raises
    [KeyError] when it is absent.  A read of a name that lookup resolves
    never consults the mapping: it returns the wrapped dict itself (for
    [d]) or what the class defines.  An attribute write, for every key,
    inserts or overwrites the key with the written value in the
    underlying mapping; for a key that lookup does not resolve a read
    then returns the written value, and the other such keys read as
    before. *)
Theorem DictObj_attribute_access {V} (inherited : string -> bool) (truth : V -> bool)
    (self : DictObj V) (key : string) :
  (resolved inherited key = false ->
   (forall v, d self !! key = Some v -> attr_read inherited self key = Ok (Mapped v)) /\
   (d self !! key = None -> attr_read inherited self key = Raise (KeyError key))) /\
  (resolved inherited key = true ->
   exists found,
     attr_read inherited self key = Ok found /\ forall v, found <> Mapped v) /\
  (forall value,
      let self' := (attr_write truth self key value).1 in
      d self' = <[key := value]> (d self) /\
      (resolved inherited key = false ->
       attr_read inherited self' key = Ok (Mapped value)) /\
      (forall other,
          other <> key -> resolved inherited other = false ->
          attr_read inherited self' other = attr_read inherited self other)).
Proof.
  refine (conj _ (conj _ _)).
  - intros Hkey. rewrite resolved_false by exact Hkey. split.
    + intros v Hv. now rewrite (DictObj_getattr_Some self key v Hv).
    + intros Hnone. now rewrite (DictObj_getattr_None self key Hnone).
  - intros Hkey.
    destruct (resolved_true inherited self key Hkey) as [-> | ->];
      eexists; (split; [reflexivity | discriminate]).
  - intros value self'. subst self'. unfold attr_write. cbn [fst DictObj_setattr d].
    refine (conj eq_refl (conj _ _)).
    + intros Hkey. rewrite resolved_false by exact Hkey.
      unfold DictObj_getattr. cbn [d]. now rewrite lookup_insert_eq.
    + intros other Hne Hother. rewrite !resolved_false by exact Hother.
      unfold DictObj_getattr. cbn [d]. now rewrite lookup_insert_ne by congruence.
Qed.

Lemma DictObj_attribute_access_witness :
  (resolved object_defines "DEFAULT_SIZE_ID" = false /\
   attr_read object_defines demo_view "DEFAULT_SIZE_ID" = Ok (Mapped (PyOther false))) /\
  (resolved object_defines "DEFAULT_USERID" = false /\
   attr_read object_defines demo_view "DEFAULT_USERID" = Raise (KeyError "DEFAULT_USERID")) /\
  attr_read object_defines
    (attr_write truthy demo_view "DEFAULT_USERID" (PyOther true)).1 "DEFAULT_USERID"
  = Ok (Mapped (PyOther true)).
Proof.
  refine (conj (conj eq_refl _) (conj (conj eq_refl _) _)).
  - apply (proj1 (proj1 (DictObj_attribute_access object_defines truthy demo_view
                           "DEFAULT_SIZE_ID") eq_refl)).
    reflexivity.
  - apply (proj2 (proj1 (DictObj_attribute_access object_defines truthy demo_view
                           "DEFAULT_USERID") eq_refl)).
    reflexivity.
  - apply (proj1 (proj2 (proj2 (proj2 (DictObj_attribute_access object_defines truthy
                                         demo_view "DEFAULT_USERID"))
                                 (PyOther true)))).
    reflexivity.
Defined.

(** Reads that do not come from the mapping.  On a view over globals
    that hold [__doc__], a read of [__doc__] returns the docstring of the
    class, not the value mapped to the key; [__class__] and [d] are not
    keys of the mapping, and a read of them returns a value instead of
    raising [KeyError]. *)
Lemma DictObj_read_bypasses_mapping :
  (d globals_view !! "__doc__" = Some (PyOther true) /\
   attr_read object_defines globals_view "__doc__" = Ok (Found "__doc__") /\
   attr_read object_defines globals_view "__doc__" <> Ok (Mapped (PyOther true))) /\
  (d globals_view !! "__class__" = None /\
   attr_read object_defines globals_view "__class__" = Ok (Found "__class__") /\
   attr_read object_defines globals_view "__class__" <> Raise (KeyError "__class__")) /\
  (d globals_view !! "d" = None /\
   attr_read object_defines globals_view "d" = Ok (Wrapped (d globals_view)) /\
   attr_read object_defines globals_view "d" <> Raise (KeyError "d")).
Proof.
  repeat split; discriminate.
Qed.

(* ===================================================================== *)
(** ** The driver *)
(* ===================================================================== *)

Lemma for_each_cons_Ok {A} (body : A -> M unit) (x : A) (l : list A) (s s' : State) :
  body x s = (Ok tt, s') -> for_each (x :: l) body s = for_each l body s'.
Proof. intros H. simpl. unfold bind. now rewrite H. Qed.

Lemma for_each_cons_Raise {A} (body : A -> M unit) (x : A) (l : list A)
    (s s' : State) (e : exn) :
  body x s = (Raise e, s') -> for_each (x :: l) body s = (Raise e, s').
Proof. intros H. simpl. unfold bind. now rewrite H. Qed.

Lemma removelast_snoc {A} (l : list A) (x : A) : removelast (l ++ [x]) = l.
Proof. apply removelast_last. Qed.

(** [del sys.path[-1]] on a search path that has an entry. *)
Lemma del_sys_path_last_nonempty (s : State) :
  sys_path s <> [] ->
  del_sys_path_last s = (Ok tt, set_sys_path (removelast (sys_path s)) s).
Proof.
  intros Hne. unfold del_sys_path_last, bind, get.
  destruct (sys_path s) eqn:Hs; [congruence |].
  unfold modify. now rewrite Hs.
Qed.

Section DriverFacts.

Variable import_ : string -> M PyModule.

(** Run [import_by_path] up to the outcome [Himp] of the import. *)
Ltac run_import Himp :=
  unfold import_by_path, bind, modify, try_finally, try_except_ImportError;
  match type of Himp with
  | _ _ (importing ?path ?s) = _ => fold (importing path s)
  end;
  rewrite Himp.

Lemma import_by_path_Ok (path : string) (s s' : State) (m : PyModule) :
  import_ (basename path) (importing path s) = (Ok m, s') ->
  sys_path s' <> [] ->
  import_by_path import_ path s = (Ok (Some m), popped s').
Proof.
  intros Himp Hne. run_import Himp. unfold ret.
  now rewrite del_sys_path_last_nonempty.
Qed.

Lemma import_by_path_ImportError (path : string) (s s' : State) :
  import_ (basename path) (importing path s) = (Raise ImportError, s') ->
  sys_path s' <> [] ->
  import_by_path import_ path s = (Ok None, popped (warned_import path s')).
Proof.
  intros Himp Hne. run_import Himp.
  unfold logger_warn, modify, ret. fold (warned_import path s').
  now rewrite del_sys_path_last_nonempty.
Qed.

Lemma import_by_path_Raise (path : string) (s s' : State) (e : exn) :
  import_ (basename path) (importing path s) = (Raise e, s') ->
  e <> ImportError ->
  sys_path s' <> [] ->
  import_by_path import_ path s = (Raise e, popped s').
Proof.
  intros Himp He Hne. run_import Himp.
  destruct e; try congruence; now rewrite del_sys_path_last_nonempty.
Qed.

(** Deleting the last entry undoes the append when nothing in between
    changed the search path. *)
Lemma popped_after_importing (path : string) (s s' : State) :
  sys_path s' = sys_path (importing path s) ->
  sys_path s' <> [] /\ sys_path (popped s') = sys_path s.
Proof.
  intros Hs'. unfold popped. cbn [sys_path set_sys_path].
  rewrite Hs'. cbn [sys_path importing set_sys_path].
  split; [| apply removelast_snoc].
  intros H. apply app_eq_nil in H as [_ H]. discriminate H.
Qed.

(** When the import leaves the search path as it found it, so does
    [import_by_path], on each of its exits. *)
Lemma import_by_path_restores (path : string) (s : State) :
  sys_path (import_ (basename path) (importing path s)).2 = sys_path (importing path s) ->
  sys_path (import_by_path import_ path s).2 = sys_path s.
Proof.
  intros Hframe.
  destruct (import_ (basename path) (importing path s)) as [[m | e] s'] eqn:Himp;
    cbn [snd] in Hframe;
    destruct (popped_after_importing path s s' Hframe) as [Hne Hpop].
  - now rewrite (import_by_path_Ok _ _ _ _ Himp Hne).
  - assert (e = ImportError \/ e <> ImportError) as [-> | He]
      by (destruct e; (now left) || (right; discriminate)).
    + now rewrite (import_by_path_ImportError _ _ _ Himp Hne).
    + now rewrite (import_by_path_Raise _ _ _ _ Himp He Hne).
Qed.

End DriverFacts.

Lemma import_by_path_restores_witness :
  sys_path (import_by_path site_import "/etc/site" site_state).2 = ["/usr/lib/python"] /\
  sys_path (import_by_path site_import "/etc/crash" site_state).2 = ["/usr/lib/python"] /\
  sys_path (import_by_path site_import "/etc/missing" site_state).2 = ["/usr/lib/python"].
Proof.
  refine (conj _ (conj _ _)).
  - apply (import_by_path_restores site_import "/etc/site" site_state). reflexivity.
  - apply (import_by_path_restores site_import "/etc/crash" site_state). reflexivity.
  - apply (import_by_path_restores site_import "/etc/missing" site_state). reflexivity.
Defined.

Section ConfigureFacts.

Variable import_ : string -> M PyModule.

Lemma configure_cons (p : string) (rest : list string) (s : State) :
  configure import_ (p :: rest) s =
    for_each (map (normalize_path (CODEPATH s)) (p :: rest)) (configure_path import_) s.
Proof. reflexivity. Qed.

Lemma configure_path_after_pubkeys (path : string) (s s1 : State) :
  collect_pubkeys path s = (Ok tt, s1) ->
  configure_path import_ path s = init_module import_ path s1.
Proof. intros H. unfold configure_path, bind. now rewrite H. Qed.

Lemma init_module_None (path : string) (s s' : State) :
  import_by_path import_ path s = (Ok None, s') ->
  init_module import_ path s = (Ok tt, s').
Proof. intros H. unfold init_module, bind. now rewrite H. Qed.

Lemma init_module_Raise (path : string) (s s' : State) (e : exn) :
  import_by_path import_ path s = (Raise e, s') ->
  init_module import_ path s = (Raise e, s').
Proof. intros H. unfold init_module, bind. now rewrite H. Qed.

Lemma init_module_init (path : string) (s s' : State) (m : PyModule) (init : M unit) :
  import_by_path import_ path s = (Ok (Some m), s') ->
  mod_init m = Some init ->
  init_module import_ path s = init (calling_init path m s').
Proof.
  intros H Hinit. unfold init_module, bind. rewrite H, Hinit. reflexivity.
Qed.

Lemma init_module_no_init (path : string) (s s' : State) (m : PyModule) :
  import_by_path import_ path s = (Ok (Some m), s') ->
  mod_init m = None ->
  init_module import_ path s = (Ok tt, s').
Proof.
  intros H Hinit. unfold init_module, bind. rewrite H, Hinit. reflexivity.
Qed.

(** C10, as the code has it: provided the code run by the import leaves
    at least one entry in [sys.path], so that the [finally] clause has an
    entry to delete, only [ImportError] is caught.  Take [configure] at a
    path whose pubkeys step has finished, in a state where the import of
    its module raises.  If it raises [ImportError], [import_by_path] logs
    a warning and returns [None], and [configure] goes on with the
    remaining paths.  If it raises anything else, that exception leaves
    [import_by_path] and [configure], and no remaining path is processed.
    The same holds for any exception raised by the [init] function of a
    module that was imported. *)
Theorem only_ImportError_is_caught (p : string) (rest : list string) (s s1 : State) :
  let path := normalize_path (CODEPATH s) p in
  let todo := map (normalize_path (CODEPATH s)) rest in
  collect_pubkeys path s = (Ok tt, s1) ->
  (forall s2,
      import_ (basename path) (importing path s1) = (Raise ImportError, s2) ->
      sys_path s2 <> [] ->
      import_by_path import_ path s1 = (Ok None, popped (warned_import path s2)) /\
      configure import_ (p :: rest) s =
        for_each todo (configure_path import_) (popped (warned_import path s2))) /\
  (forall e s2,
      e <> ImportError ->
      import_ (basename path) (importing path s1) = (Raise e, s2) ->
      sys_path s2 <> [] ->
      import_by_path import_ path s1 = (Raise e, popped s2) /\
      configure import_ (p :: rest) s = (Raise e, popped s2)) /\
  (forall m init e s2 s3,
      import_ (basename path) (importing path s1) = (Ok m, s2) ->
      sys_path s2 <> [] ->
      mod_init m = Some init ->
      init (calling_init path m (popped s2)) = (Raise e, s3) ->
      configure import_ (p :: rest) s = (Raise e, s3)).
Proof.
  intros path todo Hpre. rewrite configure_cons. simpl map.
  fold path. fold todo.
  pose proof (configure_path_after_pubkeys path s s1 Hpre) as Hbody.
  refine (conj _ (conj _ _)).
  - intros s2 Himp Hne.
    pose proof (import_by_path_ImportError import_ path s1 s2 Himp Hne) as Hby.
    split; [exact Hby |].
    apply for_each_cons_Ok. rewrite Hbody. now apply init_module_None.
  - intros e s2 He Himp Hne.
    pose proof (import_by_path_Raise import_ path s1 s2 e Himp He Hne) as Hby.
    split; [exact Hby |].
    apply for_each_cons_Raise. rewrite Hbody. now apply init_module_Raise.
  - intros m init e s2 s3 Himp Hne Hinit Hraise.
    pose proof (import_by_path_Ok import_ path s1 s2 m Himp Hne) as Hby.
    apply for_each_cons_Raise. rewrite Hbody.
    rewrite (init_module_init _ _ _ _ _ Hby Hinit). exact Hraise.
Qed.

(** C6: [configure([])] is a no-op.  It finishes normally and the state
    after it is the state before it: the registry, the base path and the
    pubkey list in particular, and the search path, the log and the rest
    of the globals as well, whatever the import mechanism would do. *)
Theorem configure_empty (s : State) :
  let out := configure import_ [] s in
  out.1 = Ok tt /\
  out.2 = s /\
  BUNDLEMAP out.2 = BUNDLEMAP s /\
  PATH out.2 = PATH s /\
  PUBKEYS out.2 = PUBKEYS s.
Proof.
  unfold configure, ret. cbn [fst snd].
  repeat split.
Qed.

End ConfigureFacts.

Lemma only_ImportError_is_caught_witness :
  (configure site_import ["/etc/missing"; "/etc/site"] site_state).1 = Ok tt /\
  PATH (configure site_import ["/etc/missing"; "/etc/site"] site_state).2 = Some "/etc/site" /\
  (configure site_import ["/etc/crash"; "/etc/site"] site_state).1
    = Raise (OtherError "NameError") /\
  PATH (configure site_import ["/etc/crash"; "/etc/site"] site_state).2 = None.
Proof.
  pose proof (only_ImportError_is_caught site_import "/etc/missing" ["/etc/site"]
                site_state _ eq_refl) as [Hmissing _].
  pose proof (only_ImportError_is_caught site_import "/etc/crash" ["/etc/site"]
                site_state _ eq_refl) as [_ [Hcrash _]].
  edestruct Hmissing as [_ ->]; [reflexivity | discriminate |].
  edestruct (Hcrash (OtherError "NameError")) as [_ ->];
    [discriminate | reflexivity | discriminate |].
  repeat split.
Defined.

(** An import failure that is not survived.  When the module being
    imported empties [sys.path] before its import fails, the [except]
    clause catches the [ImportError] and logs the warning, but the
    [finally] clause then finds no entry to delete: [import_by_path]
    raises [IndexError] instead of returning [None], and [configure]
    stops at the first path without looking at the second. *)
Lemma import_failure_not_survived :
  (emptying_import (basename "/etc/a") (importing "/etc/a" site_state)).1
    = Raise ImportError /\
  (import_by_path emptying_import "/etc/a" site_state).1 = Raise IndexError /\
  configure emptying_import ["/etc/a"; "/etc/b"] site_state
  = (Raise IndexError,
     set_sys_path []
       (set_logged [mkLog DEBUG "configuration path {0}" (ArgStr "/etc/a");
                    mkLog WARNING "unable to import {0}" (ArgStr "/etc/a")]
          site_state)).
Proof.
  repeat split.
Qed.

Lemma snoc_ne {A} (l : list A) (x : A) : l ++ [x] <> l.
Proof.
  intros H. apply (f_equal (@length A)) in H.
  rewrite length_app in H. simpl in H. lia.
Qed.

(** C4: [import_by_path] deletes the last entry of [sys.path], not the
    entry it appended.  When the body of the imported module appends a
    directory of its own (here [pathy], found at [/etc/pathy], appends
    [/opt/lib]), the [finally] clause deletes that directory and the
    appended parent [/etc] stays: the search path after the call is the
    prior one with [/etc] added. *)
Theorem import_by_path_keeps_appended_entry (s : State) :
  (import_by_path site_import "/etc/pathy" s).1 = Ok (Some (mkModule "pathy" None)) /\
  sys_path (import_by_path site_import "/etc/pathy" s).2 = sys_path s ++ ["/etc"] /\
  sys_path (import_by_path site_import "/etc/pathy" s).2 <> sys_path s.
Proof.
  assert (Himp : site_import (basename "/etc/pathy") (importing "/etc/pathy" s)
                 = (Ok (mkModule "pathy" None),
                    set_sys_path (sys_path (importing "/etc/pathy" s) ++ ["/opt/lib"])
                                 (importing "/etc/pathy" s)))
    by reflexivity.
  rewrite (import_by_path_Ok site_import _ _ _ _ Himp)
    by (simpl; intros H; apply app_eq_nil in H as [_ H]; discriminate H).
  simpl. rewrite removelast_snoc.
  repeat split. apply snoc_ne.
Qed.

Lemma filter_all_false {A} (f : A -> bool) (l : list A) :
  Forall (fun x => f x = false) l -> List.filter f l = [].
Proof.
  induction 1 as [| x l Hx _ IH]; simpl; [reflexivity |]. now rewrite Hx.
Qed.

Lemma filter_all_true {A} (f : A -> bool) (l : list A) :
  Forall (fun x => f x = true) l -> List.filter f l = l.
Proof.
  induction 1 as [| x l Hx _ IH]; simpl; [reflexivity |]. now rewrite Hx, IH.
Qed.

(** On relative paths [configure_cwd] is the specified function. *)
Lemma configure_cwd_relative (import_ : string -> M PyModule)
    (paths : list string) (s : State) :
  Forall (fun p => isabs p = false) paths ->
  configure_cwd import_ paths s = configure_relative_to_cwd_spec import_ paths s.
Proof.
  intros Hrel. unfold configure_cwd, configure_relative_to_cwd_spec, bind, get.
  rewrite filter_all_true
    by (eapply Forall_impl; [exact Hrel | intros p Hp; simpl; now rewrite Hp]).
  f_equal. apply map_ext_Forall.
  eapply Forall_impl; [exact Hrel |]. intros p Hp; simpl. now rewrite Hp.
Qed.

Lemma configure_cwd_relative_witness :
  Forall (fun p => isabs p = false) ["site"; "conf/extra"] /\
  configure_cwd site_import ["site"; "conf/extra"] site_state
    = configure site_import ["/home/alice/site"; "/home/alice/conf/extra"] site_state.
Proof.
  split; [repeat constructor |].
  rewrite (configure_cwd_relative site_import ["site"; "conf/extra"] site_state)
    by repeat constructor.
  reflexivity.
Defined.

(** Absolute paths are left out, so a call with nothing but absolute
    paths does nothing. *)
Lemma configure_cwd_absolute (import_ : string -> M PyModule)
    (paths : list string) (s : State) :
  Forall (fun p => isabs p = true) paths ->
  configure_cwd import_ paths s = (Ok tt, s).
Proof.
  intros Habs. unfold configure_cwd, bind, get.
  rewrite filter_all_false; [reflexivity |].
  eapply Forall_impl; [exact Habs |]. intros p Hp; simpl. now rewrite Hp.
Qed.

(** C1: [configure_cwd] does not process the absolute paths it is given.
    Called with the absolute path [/etc/site] alone it returns with the
    state unchanged, for any import mechanism, while [configure] on that
    path, and so the specified [configure_relative_to_cwd], loads the
    module and runs its [init]: the base path is set and the bundle of
    the site is registered. *)
Theorem configure_cwd_skips_absolute_paths :
  (forall import_ s, configure_cwd import_ ["/etc/site"] s = (Ok tt, s)) /\
  (configure_relative_to_cwd_spec site_import ["/etc/site"] site_state).1 = Ok tt /\
  PATH (configure_relative_to_cwd_spec site_import ["/etc/site"] site_state).2
    = Some "/etc/site" /\
  is_Some (BUNDLEMAP (configure_relative_to_cwd_spec site_import ["/etc/site"] site_state).2
             !! "web") /\
  configure_cwd site_import ["/etc/site"] site_state
    <> configure_relative_to_cwd_spec site_import ["/etc/site"] site_state.
Proof.
  refine (conj _ (conj _ (conj _ (conj _ _)))).
  - intros import_ s. apply configure_cwd_absolute. repeat constructor.
  - reflexivity.
  - reflexivity.
  - eexists. reflexivity.
  - rewrite configure_cwd_absolute by repeat constructor.
    intros H. apply (f_equal (fun out => PATH out.2)) in H. discriminate H.
Qed.

(* ===================================================================== *)
(** ** Further properties *)
(* ===================================================================== *)

Lemma for_each_read_appends (loadpath : string) (names texts : list string) :
  forall s,
    Forall2 (fun n t => fs_read s (join loadpath [n]) = Some t) names texts ->
    for_each names
      (fun filename =>
         text <- open_read (join loadpath [filename]);;
         modify (fun s => set_PUBKEYS (PUBKEYS s ++ [text]) s)) s
    = (Ok tt, set_PUBKEYS (PUBKEYS s ++ texts) s).
Proof.
  intros s H. revert s H.
  induction names as [| n names IH] in texts |- *; intros s H.
  - inversion H; subst. simpl. unfold ret, set_PUBKEYS.
    rewrite app_nil_r. now destruct s.
  - inversion H as [| ? t ? texts' Hn Hrest]; subst.
    rewrite (for_each_cons_Ok _ _ _ s (set_PUBKEYS (PUBKEYS s ++ [t]) s))
      by (unfold bind, open_read; now rewrite Hn).
    rewrite (IH texts') by exact Hrest.
    unfold set_PUBKEYS; cbn [PUBKEYS BUNDLEMAP PATH CODEPATH PUBKEYSDIR
                             DEFAULT_TARGETDIR sys_path cwd fs_exists fs_listdir
                             fs_read logged].
    now rewrite <- app_assoc.
Qed.

(** [load_pubkeys] on a directory all of whose entries can be read
    appends their contents to [PUBKEYS], in the order of the listing,
    and changes nothing else but the log. *)
Lemma load_pubkeys_appends (loadpath : string) (names texts : list string) (s : State) :
  fs_listdir s loadpath = Some names ->
  Forall2 (fun n t => fs_read s (join loadpath [n]) = Some t) names texts ->
  load_pubkeys loadpath s =
    (Ok tt,
     set_PUBKEYS (PUBKEYS s ++ texts)
       (set_logged
          (logged s ++ [mkLog DEBUG "loading authorized pubkeys {0}" (ArgList names)]) s)).
Proof.
  intros Hls Hrd. unfold load_pubkeys, bind, os_listdir. rewrite Hls.
  unfold logger_debug, modify.
  now rewrite (for_each_read_appends loadpath names texts).
Qed.

Lemma load_pubkeys_appends_witness :
  PUBKEYS (load_pubkeys "/etc/site/pubkeys" keys_state).2
    = ["ssh-rsa AAAA alice"; "ssh-rsa BBBB bob"].
Proof.
  rewrite (load_pubkeys_appends "/etc/site/pubkeys" ["a.pub"; "b.pub"]
             ["ssh-rsa AAAA alice"; "ssh-rsa BBBB bob"] keys_state eq_refl)
    by (repeat constructor).
  reflexivity.
Defined.

(** One run of [configure] over the site: the keys are collected, the
    module is loaded, its [init] registers the bundle against the
    directory it came from, and the search path is as before. *)
Example configure_site_run :
  let out := configure site_import ["/etc/site"] keys_state in
  out.1 = Ok tt /\
  PUBKEYS out.2 = ["ssh-rsa AAAA alice"; "ssh-rsa BBBB bob"] /\
  PATH out.2 = Some "/etc/site" /\
  BUNDLEMAP out.2 !! "web" =
    Some (mkBundle
            (PyDict {[ "/root/deploy/setup.sh" := "/etc/site/scripts/setup.sh" ]})
            (PyDict {[ "/etc/app.conf" := "/etc/site/files/app.conf" ]})) /\
  sys_path out.2 = ["/usr/lib/python"].
Proof. repeat split. Qed.

(* ===================================================================== *)
(** ** The maps of a bundle *)
(* ===================================================================== *)

Lemma dict_of_pairs_snoc (l : list (string * string)) (k v : string) :
  dict_of_pairs (l ++ [(k, v)]) = <[k := v]> (dict_of_pairs l).
Proof. unfold dict_of_pairs. now rewrite fold_left_app. Qed.

(** Every entry of the dict is one of the pairs. *)
Lemma dict_of_pairs_lookup_Some (l : list (string * string)) (k v : string) :
  dict_of_pairs l !! k = Some v -> (k, v) ∈ l.
Proof.
  induction l as [| [k' v'] l IH] using rev_ind.
  - unfold dict_of_pairs; simpl. rewrite lookup_empty. discriminate.
  - rewrite dict_of_pairs_snoc. intros Hlook. apply elem_of_app.
    destruct (decide (k' = k)) as [-> | Hne].
    + rewrite lookup_insert_eq in Hlook. inversion Hlook; subst.
      right. apply list_elem_of_singleton. reflexivity.
    + rewrite lookup_insert_ne in Hlook by exact Hne. left. now apply IH.
Qed.

(** When no key is paired with two values, every pair is an entry. *)
Lemma dict_of_pairs_lookup_elem (l : list (string * string)) :
  (forall k v v', (k, v) ∈ l -> (k, v') ∈ l -> v = v') ->
  forall k v, (k, v) ∈ l -> dict_of_pairs l !! k = Some v.
Proof.
  induction l as [| [k' v'] l IH] using rev_ind; intros Hfun k v Hkv.
  - now apply elem_of_nil in Hkv.
  - rewrite dict_of_pairs_snoc.
    assert (Hlast : (k', v') ∈ l ++ [(k', v')])
      by (apply elem_of_app; right; now apply list_elem_of_singleton).
    destruct (decide (k' = k)) as [-> | Hne].
    + rewrite lookup_insert_eq. f_equal. now apply (Hfun k).
    + rewrite lookup_insert_ne by exact Hne. apply IH.
      * intros k0 v0 v0' H1 H2.
        apply (Hfun k0); apply elem_of_app; now left.
      * apply elem_of_app in Hkv as [Hkv | Hkv]; [exact Hkv |].
        apply list_elem_of_singleton in Hkv. congruence.
Qed.

Lemma append_inj_r (a x y : string) : a +:+ x = a +:+ y -> x = y.
Proof.
  induction a as [| c a IH]; simpl; intros H; [exact H |].
  apply IH. now inversion H.
Qed.

(** Joining relative names to one directory keeps them apart. *)
Lemma join_relative_inj (t f g : string) :
  isabs f = false -> isabs g = false -> join t [f] = join t [g] -> f = g.
Proof.
  intros Hf Hg. rewrite !join_one_relative by assumption.
  destruct (negb (nonempty t) || endswith_sep t); intros H.
  - now apply append_inj_r in H.
  - apply append_inj_r in H. now apply (append_inj_r "/") in H.
Qed.

(** The dict [makemap] builds, at a relative name of the list. *)
Lemma joined_pairs_lookup (t src : string) (filenames : list string) (f : string) :
  Forall (fun f => isabs f = false) filenames ->
  f ∈ filenames ->
  dict_of_pairs (map (fun f => (join t [f], join src [f])) filenames) !! join t [f]
  = Some (join src [f]).
Proof.
  intros Hrel Hf. apply dict_of_pairs_lookup_elem.
  - intros k v v' H1 H2.
    apply list_elem_of_fmap in H1 as [f1 [Heq1 Hf1]].
    apply list_elem_of_fmap in H2 as [f2 [Heq2 Hf2]].
    inversion Heq1; inversion Heq2; subst.
    rewrite Forall_forall in Hrel.
    assert (f1 = f2) as ->; [| reflexivity].
    eapply join_relative_inj; eauto.
  - apply list_elem_of_fmap. exists f. auto.
Qed.

Lemma makemap_run (filenames : list string) (sourcedir : string)
    (targetdir : option string) (s : State) :
  makemap filenames sourcedir targetdir s =
    (Ok (dict_of_pairs
           (map (fun f => (join (default (DEFAULT_TARGETDIR s) targetdir) [f],
                           join sourcedir [f])) filenames)), s).
Proof. reflexivity. Qed.

(** [makemap] reads [DEFAULT_TARGETDIR] when no target directory is
    given and changes nothing.  Every entry of its result maps a name
    joined to the target directory to the same name joined to the source
    directory; and when the names are relative, every name has its entry,
    however often it occurs in the list. *)
Theorem makemap_entries (filenames : list string) (sourcedir : string)
    (targetdir : option string) (s : State) :
  let t := default (DEFAULT_TARGETDIR s) targetdir in
  exists m,
    makemap filenames sourcedir targetdir s = (Ok m, s) /\
    (forall k v, m !! k = Some v ->
       exists f, f ∈ filenames /\ k = join t [f] /\ v = join sourcedir [f]) /\
    (Forall (fun f => isabs f = false) filenames ->
     forall f, f ∈ filenames -> m !! join t [f] = Some (join sourcedir [f])).
Proof.
  intros t. eexists. split; [apply makemap_run |]. fold t. split.
  - intros k v Hkv. apply dict_of_pairs_lookup_Some in Hkv.
    apply list_elem_of_fmap in Hkv as [f [Heq Hf]].
    exists f. inversion Heq; subst. auto.
  - intros Hrel f Hf. now apply joined_pairs_lookup.
Qed.

Lemma makemap_entries_witness :
  exists m,
    makemap ["a.sh"; "b.sh"; "a.sh"] "/srv/scripts" None site_state = (Ok m, site_state) /\
    m !! "/root/deploy/a.sh" = Some "/srv/scripts/a.sh" /\
    m !! "/root/deploy/b.sh" = Some "/srv/scripts/b.sh".
Proof.
  destruct (makemap_entries ["a.sh"; "b.sh"; "a.sh"] "/srv/scripts" None site_state)
    as [m [Hrun [_ Hall]]].
  exists m. split; [exact Hrun |].
  assert (Hrel : Forall (fun f => isabs f = false) ["a.sh"; "b.sh"; "a.sh"])
    by (repeat constructor).
  split.
  - apply (Hall Hrel "a.sh"). apply list_elem_of_here.
  - apply (Hall Hrel "b.sh"). apply list_elem_of_further, list_elem_of_here.
Defined.

(** In a dict built from pairs, a pair gives the value of its key when
    no later pair has that key. *)
Lemma dict_of_pairs_last_wins (before after : list (string * string)) (k v : string) :
  Forall (fun kv => kv.1 <> k) after ->
  dict_of_pairs (before ++ (k, v) :: after) !! k = Some v.
Proof.
  induction after as [| [k' v'] after IH] using rev_ind; intros Hafter.
  - rewrite dict_of_pairs_snoc. apply lookup_insert_eq.
  - apply Forall_app in Hafter as [Hafter Hlast].
    change (before ++ (k, v) :: after ++ [(k', v')])
      with (before ++ ((k, v) :: after) ++ [(k', v')]).
    rewrite app_assoc, dict_of_pairs_snoc.
    inversion Hlast as [| ? ? Hne _]; subst. cbn [fst] in Hne.
    rewrite lookup_insert_ne by exact Hne. now apply IH.
Qed.

(** Names that collide in [makemap]: the last one wins.  When several
    names of the list are sent to the same target path, the entry for
    that path is the source of the last of them: a name gives the entry
    of its target path whenever no later name of the list has the same
    target path, whatever the earlier names are. *)
Theorem makemap_last_wins (before after : list string) (f sourcedir : string)
    (targetdir : option string) (s : State) :
  let t := default (DEFAULT_TARGETDIR s) targetdir in
  Forall (fun g => join t [g] <> join t [f]) after ->
  exists m,
    makemap (before ++ f :: after) sourcedir targetdir s = (Ok m, s) /\
    m !! join t [f] = Some (join sourcedir [f]).
Proof.
  intros t Hafter. eexists. split; [apply makemap_run |]. fold t.
  rewrite map_app. cbn [map].
  apply (dict_of_pairs_last_wins _ _ (join t [f]) (join sourcedir [f])).
  apply Forall_forall. intros kv Hkv.
  apply list_elem_of_fmap in Hkv as [g [-> Hg]]. cbn [fst].
  rewrite Forall_forall in Hafter. now apply Hafter.
Qed.

Lemma makemap_last_wins_witness :
  exists m,
    makemap (["a.sh"] ++ "/root/deploy/a.sh" :: ["b.sh"]) "/srv/scripts" None site_state
      = (Ok m, site_state) /\
    m !! "/root/deploy/a.sh" = Some "/root/deploy/a.sh".
Proof.
  apply (makemap_last_wins ["a.sh"] ["b.sh"] "/root/deploy/a.sh" "/srv/scripts" None
           site_state).
  repeat constructor. discriminate.
Defined.

(** [rfind_from] returns the fallback when there is no separator, and an
    index from the start on when there is one. *)
Lemma rfind_from_cases (s : string) :
  forall i last : Z,
    (has_sep s = false /\ rfind_from s i last = last) \/
    (has_sep s = true /\ (i <= rfind_from s i last)%Z).
Proof.
  induction s as [| c r IH]; intros i last; simpl; [now left |].
  destruct (IH (i + 1)%Z (if is_sep c then i else last)) as [[Hr Hk] | [Hr Hk]].
  - rewrite Hr, Hk. destruct (is_sep c); simpl; [right | left]; split; auto; lia.
  - rewrite Hr, orb_true_r. right. split; [reflexivity | lia].
Qed.

(** What follows the last separator contains none. *)
Lemma slice_after_rfind (s : string) :
  forall i last : Z,
    (last < i)%Z ->
    has_sep (slice_from (Z.to_nat (rfind_from s i last + 1 - i)) s) = false.
Proof.
  induction s as [| c r IH]; intros i last Hlast.
  - simpl. now destruct (Z.to_nat _).
  - cbn [rfind_from].
    set (last' := if is_sep c then i else last).
    assert (Hlast' : (last' < i + 1)%Z) by (subst last'; destruct (is_sep c); lia).
    specialize (IH (i + 1)%Z last' Hlast').
    destruct (rfind_from_cases r (i + 1)%Z last') as [[Hr Hk] | [Hr Hk]].
    + rewrite Hk in *. subst last'. destruct (is_sep c) eqn:Hc.
      * replace (Z.to_nat (i + 1 - i)) with 1%nat by lia.
        replace (Z.to_nat (i + 1 - (i + 1))) with 0%nat in IH by lia.
        exact IH.
      * replace (Z.to_nat (last + 1 - i)) with 0%nat by lia.
        simpl. now rewrite Hc, Hr.
    + replace (Z.to_nat (rfind_from r (i + 1) last' + 1 - i))
        with (S (Z.to_nat (rfind_from r (i + 1) last' + 1 - (i + 1)))) by lia.
      exact IH.
Qed.

(** [os.path.basename] returns a name without a separator. *)
Lemma basename_no_sep (p : string) : has_sep (basename p) = false.
Proof.
  unfold basename, rfind_sep.
  pose proof (slice_after_rfind p 0%Z (-1)%Z ltac:(lia)) as H.
  now rewrite Z.sub_0_r in H.
Qed.

Lemma no_sep_relative (s : string) : has_sep s = false -> isabs s = false.
Proof. destruct s as [| c r]; simpl; [trivial |]. now destruct (is_sep c). Qed.

Lemma zip_with_image {A B} (g : A -> B) (l : list A) :
  zip l (map g l) = map (fun x => (x, g x)) l.
Proof. induction l as [| x l IH]; simpl; [reflexivity | now rewrite IH]. Qed.

(** What [add_bundle] stores when a base path is set. *)
Lemma add_bundle_stores (name : string) (scripts files : list string)
    (sd fd path : string) (s : State) :
  PATH s = Some path ->
  (add_bundle name scripts files sd fd s).1 = Ok tt /\
  exists smap fmap,
    BUNDLEMAP (add_bundle name scripts files sd fd s).2 !! name
      = Some (mkBundle (PyDict smap) (PyDict fmap)) /\
    (forall f, f ∈ files -> fmap !! f = Some (join (join path [fd]) [basename f])) /\
    (forall k v, fmap !! k = Some v -> k ∈ files) /\
    (Forall (fun f => isabs f = false) scripts ->
     forall f, f ∈ scripts ->
       smap !! join (DEFAULT_TARGETDIR s) [f] = Some (join (join path [sd]) [f])).
Proof.
  intros HP. rewrite (add_bundle_with_PATH _ _ _ _ _ _ _ HP).
  split; [now rewrite new_bundle_run |].
  eexists _, _.
  split; [rewrite new_bundle_lookup, Bundle_init_dicts; reflexivity |].
  rewrite zip_with_image.
  refine (conj _ (conj _ _)).
  - intros f Hf.
    apply dict_of_pairs_lookup_elem.
    + intros k v v' H1 H2.
      apply list_elem_of_fmap in H1 as [f1 [Heq1 _]].
      apply list_elem_of_fmap in H2 as [f2 [Heq2 _]].
      inversion Heq1; inversion Heq2; subst. congruence.
    + apply list_elem_of_fmap. exists f. auto.
  - intros k v Hkv. apply dict_of_pairs_lookup_Some in Hkv.
    apply list_elem_of_fmap in Hkv as [f [Heq Hf]]. now inversion Heq; subst.
  - intros Hrel f Hf. now apply joined_pairs_lookup.
Qed.

(** With a base path set, [add_bundle] stores a Bundle of two dicts.  The
    filemap has exactly the given target files as keys, and maps each to
    its base name inside the files directory under the base path: the
    directories of the target path are dropped, so targets with one base
    name share one source.  When all the script names are relative, the
    scriptmap maps every one of them, joined to [DEFAULT_TARGETDIR], to
    that name inside the scripts directory under the base path. *)
Theorem add_bundle_maps (name : string) (scripts files : list string)
    (sd fd path : string) (s : State) :
  PATH s = Some path ->
  let out := add_bundle name scripts files sd fd s in
  out.1 = Ok tt /\
  exists smap fmap,
    BUNDLEMAP out.2 !! name = Some (mkBundle (PyDict smap) (PyDict fmap)) /\
    (forall f, f ∈ files ->
       fmap !! f = Some (join (join path [fd]) [basename f]) /\
       has_sep (basename f) = false) /\
    (forall k v, fmap !! k = Some v -> k ∈ files) /\
    (Forall (fun f => isabs f = false) scripts ->
     forall f, f ∈ scripts ->
       smap !! join (DEFAULT_TARGETDIR s) [f] = Some (join (join path [sd]) [f])).
Proof.
  intros HP out. subst out.
  destruct (add_bundle_stores name scripts files sd fd path s HP)
    as [Hok [smap [fmap [Hb [Hfiles [Hkeys Hscripts]]]]]].
  split; [exact Hok |]. exists smap, fmap.
  refine (conj Hb (conj _ (conj Hkeys Hscripts))).
  intros f Hf. split; [now apply Hfiles | apply basename_no_sep].
Qed.

Lemma add_bundle_maps_witness :
  exists smap fmap,
    BUNDLEMAP (add_bundle "etc" ["run.sh"] ["/etc/a/app.conf"; "/etc/b/app.conf"]
                 SCRIPTSDIR FILESDIR demo_state).2 !! "etc"
      = Some (mkBundle (PyDict smap) (PyDict fmap)) /\
    fmap !! "/etc/a/app.conf" = Some "/srv/bundles/files/app.conf" /\
    fmap !! "/etc/b/app.conf" = Some "/srv/bundles/files/app.conf" /\
    smap !! "/root/deploy/run.sh" = Some "/srv/bundles/scripts/run.sh".
Proof.
  destruct (add_bundle_maps "etc" ["run.sh"] ["/etc/a/app.conf"; "/etc/b/app.conf"]
              SCRIPTSDIR FILESDIR "/srv/bundles" demo_state eq_refl)
    as [_ [smap [fmap [Hb [Hfiles [_ Hscripts]]]]]].
  exists smap, fmap. split; [exact Hb |].
  refine (conj _ (conj _ _)).
  - apply (Hfiles "/etc/a/app.conf"). apply list_elem_of_here.
  - apply (Hfiles "/etc/b/app.conf"). apply list_elem_of_further, list_elem_of_here.
  - apply (Hscripts ltac:(repeat constructor) "run.sh"). apply list_elem_of_here.
Defined.

(** Before any configuration module with an [init] has been loaded
    ([PATH] is [None]), [add_bundle] with a relative scripts directory
    raises and leaves the state, the registry included, as it was. *)
Theorem add_bundle_without_PATH (name : string) (scripts files : list string)
    (sd fd : string) (s : State) :
  PATH s = None ->
  isabs sd = false ->
  exists e, add_bundle name scripts files sd fd s = (Raise e, s).
Proof.
  intros HP Hsd. exists AttributeError.
  unfold add_bundle, bind, get, lift, join_any. simpl.
  unfold isabs in Hsd. now rewrite HP, Hsd.
Qed.

Lemma add_bundle_without_PATH_witness :
  exists e,
    add_bundle "web" ["setup.sh"] ["/etc/app.conf"] SCRIPTSDIR FILESDIR site_state
    = (Raise e, site_state).
Proof.
  apply (add_bundle_without_PATH "web" ["setup.sh"] ["/etc/app.conf"]
           SCRIPTSDIR FILESDIR site_state); reflexivity.
Defined.

(** [new_bundle] warns exactly when the name is taken.  Under a new name
    it logs nothing; in either case the registered names afterwards are
    the old ones and the new one, and the pubkeys, the base path and the
    search path are untouched. *)
Theorem new_bundle_names (name : string) (sm fm : pyval) (s : State) :
  let out := new_bundle name sm fm s in
  dom (BUNDLEMAP out.2) = {[ name ]} ∪ dom (BUNDLEMAP s) /\
  (logged out.2 = logged s <-> BUNDLEMAP s !! name = None) /\
  PUBKEYS out.2 = PUBKEYS s /\ PATH out.2 = PATH s /\ sys_path out.2 = sys_path s.
Proof.
  intros out. subst out. rewrite new_bundle_run. cbn [snd].
  case_bool_decide as Hin; cbn.
  - refine (conj (dom_insert_L _ _ _) (conj _ (conj eq_refl (conj eq_refl eq_refl)))).
    split.
    + intros H. now apply snoc_ne in H.
    + intros H. rewrite H in Hin. now destruct Hin.
  - refine (conj (dom_insert_L _ _ _) (conj _ (conj eq_refl (conj eq_refl eq_refl)))).
    split; [| reflexivity]. intros _.
    destruct (BUNDLEMAP s !! name) eqn:E; [| reflexivity].
    exfalso. apply Hin. eauto.
Qed.

(* ===================================================================== *)
(** ** Writes through the attribute view *)
(* ===================================================================== *)

(** A write through a [DictObj] warns exactly when the key already holds
    a value that tests true.  Writing a new key, or overwriting a value
    that tests false (a zero, an empty list or string, [None]), logs
    nothing. *)
Theorem DictObj_setattr_warns {V} (truth : V -> bool) (self : DictObj V)
    (key : string) (value : V) :
  ((DictObj_setattr truth self key value).2
     = [mkLog WARNING "overwriting config.{0}" (ArgStr key)]
   <-> exists old, d self !! key = Some old /\ truth old = true) /\
  ((DictObj_setattr truth self key value).2 = []
   <-> d self !! key = None \/ exists old, d self !! key = Some old /\ truth old = false).
Proof.
  unfold DictObj_setattr, get_truthy; cbn [snd].
  destruct (d self !! key) as [old |] eqn:Hold.
  - destruct (truth old) eqn:Ht; split; split; intros H; try discriminate; eauto.
    + destruct H as [H | [o [Ho Hf]]]; [discriminate | congruence].
    + destruct H as [o [Ho Hf]]. congruence.
  - split; split; intros H; try discriminate; eauto.
    destruct H as [o [Ho _]]. discriminate.
Qed.

(** Two writes in a row.  To the same key, the second value is the one
    kept, and the second write warns exactly when the first value tests
    true.  To different keys, the order of the writes does not matter for
    the dict. *)
Theorem DictObj_setattr_twice {V} (truth : V -> bool) (self : DictObj V)
    (k1 k2 : string) (v1 v2 : V) :
  let once := (DictObj_setattr truth self k1 v1).1 in
  d (DictObj_setattr truth once k1 v2).1 = d (DictObj_setattr truth self k1 v2).1 /\
  (DictObj_setattr truth once k1 v2).2
    = (if truth v1 then [mkLog WARNING "overwriting config.{0}" (ArgStr k1)] else []) /\
  (k1 <> k2 ->
   d (DictObj_setattr truth once k2 v2).1
   = d (DictObj_setattr truth (DictObj_setattr truth self k2 v2).1 k1 v1).1).
Proof.
  intros once. subst once. unfold DictObj_setattr, get_truthy; cbn [fst snd d].
  refine (conj _ (conj _ _)).
  - apply insert_insert_eq.
  - now rewrite lookup_insert_eq.
  - intros Hne. now apply insert_insert_ne.
Qed.

Lemma DictObj_setattr_twice_witness :
  d (DictObj_setattr truthy (DictObj_setattr truthy demo_view "PATH" PyNone).1
       "DEFAULT_SIZE_ID" (PyOther true)).1
  = d (DictObj_setattr truthy
         (DictObj_setattr truthy demo_view "DEFAULT_SIZE_ID" (PyOther true)).1
         "PATH" PyNone).1.
Proof.
  apply (proj2 (proj2 (DictObj_setattr_twice truthy demo_view
                         "PATH" "DEFAULT_SIZE_ID" PyNone (PyOther true)))).
  discriminate.
Defined.

(* ===================================================================== *)
(** ** Collecting public keys *)
(* ===================================================================== *)

(** A loop over two lists in a row is the loop over the first, then, if
    it has not raised, the loop over the second. *)
Lemma for_each_app {A} (body : A -> M unit) (l1 l2 : list A) (s : State) :
  for_each (l1 ++ l2) body s = (for_each l1 body;; for_each l2 body) s.
Proof.
  revert s. induction l1 as [| x l1 IH]; intros s; [reflexivity |].
  cbn [app for_each]. unfold bind.
  destruct (body x s) as [[[] | e] s1]; [| reflexivity].
  rewrite IH. reflexivity.
Qed.

(** How [load_pubkeys] fails.  Without a directory to list it raises
    [OSError] and changes nothing.  When an entry cannot be read it raises
    [IOError] for that entry; the contents of the entries before it have
    been appended to [PUBKEYS] and stay there, and the entries after it
    are not read. *)
Theorem load_pubkeys_failures (loadpath : string) (s : State) :
  (fs_listdir s loadpath = None ->
   load_pubkeys loadpath s = (Raise (OSError loadpath), s)) /\
  (forall good texts bad rest,
      fs_listdir s loadpath = Some (good ++ bad :: rest) ->
      Forall2 (fun n t => fs_read s (join loadpath [n]) = Some t) good texts ->
      fs_read s (join loadpath [bad]) = None ->
      load_pubkeys loadpath s =
        (Raise (IOError (join loadpath [bad])),
         set_PUBKEYS (PUBKEYS s ++ texts) (logged_listing (good ++ bad :: rest) s))).
Proof.
  split.
  - intros Hls. unfold load_pubkeys, bind, os_listdir. now rewrite Hls.
  - intros good texts bad rest Hls Hgood Hbad.
    unfold load_pubkeys, bind at 1, os_listdir. rewrite Hls.
    unfold bind at 1, logger_debug, modify.
    fold (logged_listing (good ++ bad :: rest) s).
    rewrite for_each_app. unfold bind at 1.
    rewrite (for_each_read_appends loadpath good texts) by exact Hgood.
    cbn [for_each]. unfold bind, open_read. cbn [fs_read set_PUBKEYS logged_listing set_logged].
    now rewrite Hbad.
Qed.

Lemma load_pubkeys_failures_witness :
  (load_pubkeys "/etc/site/pubkeys" broken_keys_state).1
    = Raise (IOError "/etc/site/pubkeys/b.pub") /\
  PUBKEYS (load_pubkeys "/etc/site/pubkeys" broken_keys_state).2 = ["ssh-rsa AAAA alice"] /\
  load_pubkeys "/etc/nowhere" broken_keys_state
    = (Raise (OSError "/etc/nowhere"), broken_keys_state).
Proof.
  destruct (load_pubkeys_failures "/etc/site/pubkeys" broken_keys_state) as [_ Hbad].
  rewrite (Hbad ["a.pub"] ["ssh-rsa AAAA alice"] "b.pub" ["c.pub"] eq_refl
             ltac:(repeat constructor) eq_refl).
  refine (conj eq_refl (conj eq_refl _)).
  apply (proj1 (load_pubkeys_failures "/etc/nowhere" broken_keys_state)). reflexivity.
Defined.

(* ===================================================================== *)
(** ** What a run of the driver keeps

    A relation between the state before and the state after that every
    statement of a run keeps is kept by the run.  The relation is asked
    to be a preorder that the four kinds of assignment made by the
    functions of [config.py] respect; the code of the site is asked to
    keep it too. *)
(* ===================================================================== *)

Section Keeps.

Context (R : relation State) `{!PreOrder R}.

Lemma keeps_ret {A} (a : A) : keeps R (ret a).
Proof. intros s. reflexivity. Qed.

Lemma keeps_raise {A} (e : exn) : keeps R (@raise A e).
Proof. intros s. reflexivity. Qed.

Lemma keeps_lift {A} (r : result A) : keeps R (lift r).
Proof. intros s. reflexivity. Qed.

Lemma keeps_modify (f : State -> State) : (forall s, R s (f s)) -> keeps R (modify f).
Proof. intros Hf s. apply Hf. Qed.

Lemma keeps_bind {A B} (m : M A) (k : A -> M B) :
  keeps R m -> (forall a, keeps R (k a)) -> keeps R (bind m k).
Proof.
  intros Hm Hk s. unfold bind. specialize (Hm s).
  destruct (m s) as [[a | e] s1]; cbn [snd] in *; [| exact Hm].
  etransitivity; [exact Hm | apply Hk].
Qed.

(** The continuation need only keep [R] at the values the first statement
    can return. *)
Lemma keeps_bind_at {A B} (m : M A) (k : A -> M B) :
  keeps R m ->
  (forall s a s1, m s = (Ok a, s1) -> R s1 (k a s1).2) ->
  keeps R (bind m k).
Proof.
  intros Hm Hk s. unfold bind. specialize (Hm s).
  destruct (m s) as [[a | e] s1] eqn:Hms; cbn [snd] in *; [| exact Hm].
  etransitivity; [exact Hm | now apply (Hk s)].
Qed.

Lemma keeps_for_each {A} (body : A -> M unit) (l : list A) :
  (forall x, x ∈ l -> keeps R (body x)) -> keeps R (for_each l body).
Proof.
  induction l as [| x l IH]; intros Hbody; [apply keeps_ret |].
  cbn [for_each]. apply keeps_bind.
  - apply Hbody, list_elem_of_here.
  - intros _. apply IH. intros y Hy. apply Hbody. now apply list_elem_of_further.
Qed.

Lemma keeps_try_except {A} (body handler : M A) :
  keeps R body -> keeps R handler -> keeps R (try_except_ImportError body handler).
Proof.
  intros Hb Hh s. unfold try_except_ImportError. specialize (Hb s).
  destruct (body s) as [[a | e] s1]; cbn [snd] in *; [exact Hb |].
  destruct e; try exact Hb. etransitivity; [exact Hb | apply Hh].
Qed.

Lemma keeps_try_finally {A} (body : M A) (cleanup : M unit) :
  keeps R body -> keeps R cleanup -> keeps R (try_finally body cleanup).
Proof.
  intros Hb Hc s. unfold try_finally. specialize (Hb s).
  destruct (body s) as [r s1]. specialize (Hc s1).
  destruct (cleanup s1) as [[[] | e] s2]; cbn [snd] in *;
    etransitivity; eassumption.
Qed.

(** The assignments of [config.py]. *)
Hypothesis R_logged : forall s l, R s (set_logged l s).
Hypothesis R_appended : forall s text, R s (set_PUBKEYS (PUBKEYS s ++ [text]) s).
Hypothesis R_sys_path : forall s l, R s (set_sys_path l s).

(** The directories [PATH] may be set to. *)
Variable allowed : string -> Prop.
Hypothesis R_PATH : forall s path, allowed path -> R s (set_PATH (Some path) s).

Lemma keeps_logger_warn fmt a : keeps R (logger_warn fmt a).
Proof. apply keeps_modify. intros s. apply R_logged. Qed.

Lemma keeps_logger_debug fmt a : keeps R (logger_debug fmt a).
Proof. apply keeps_modify. intros s. apply R_logged. Qed.

Lemma keeps_os_path_exists p : keeps R (os_path_exists p).
Proof. intros s. reflexivity. Qed.

Lemma keeps_os_listdir p : keeps R (os_listdir p).
Proof. intros s. unfold os_listdir. destruct (fs_listdir s p); reflexivity. Qed.

Lemma keeps_open_read p : keeps R (open_read p).
Proof. intros s. unfold open_read. destruct (fs_read s p); reflexivity. Qed.

Lemma keeps_load_pubkeys loadpath : keeps R (load_pubkeys loadpath).
Proof.
  unfold load_pubkeys.
  apply keeps_bind; [apply keeps_os_listdir | intros filenames].
  apply keeps_bind; [apply keeps_logger_debug | intros _].
  apply keeps_for_each. intros filename _.
  apply keeps_bind; [apply keeps_open_read | intros text].
  apply keeps_modify. intros s. apply R_appended.
Qed.

Lemma keeps_collect_pubkeys path : keeps R (collect_pubkeys path).
Proof.
  unfold collect_pubkeys.
  apply keeps_bind; [apply keeps_logger_debug | intros _].
  apply keeps_bind; [intros s; reflexivity | intros s0].
  apply keeps_bind; [apply keeps_os_path_exists | intros present].
  destruct present; [apply keeps_load_pubkeys | apply keeps_ret].
Qed.

Lemma keeps_del_sys_path_last : keeps R del_sys_path_last.
Proof.
  unfold del_sys_path_last.
  apply keeps_bind; [intros s; reflexivity | intros s0].
  destruct (sys_path s0) as [| entry entries]; [apply keeps_raise |].
  apply keeps_modify. intros s. apply R_sys_path.
Qed.

Variable import_ : string -> M PyModule.
Hypothesis Hsite : site_keeps R import_.

Lemma keeps_import_by_path path : keeps R (import_by_path import_ path).
Proof.
  unfold import_by_path.
  apply keeps_bind; [apply keeps_modify; intros s; apply R_sys_path | intros _].
  apply keeps_try_finally; [| apply keeps_del_sys_path_last].
  apply keeps_try_except.
  - apply keeps_bind; [apply Hsite | intros m; apply keeps_ret].
  - apply keeps_bind; [apply keeps_logger_warn | intros _; apply keeps_ret].
Qed.

(** The module [import_by_path] returns is one the import returned. *)
Lemma import_by_path_module path s m s1 :
  import_by_path import_ path s = (Ok (Some m), s1) ->
  exists s2, import_ (basename path) (importing path s) = (Ok m, s2).
Proof.
  unfold import_by_path, bind, modify, try_finally, try_except_ImportError.
  fold (importing path s).
  destruct (import_ (basename path) (importing path s)) as [[m' | e] s2].
  - unfold ret.
    destruct (del_sys_path_last s2) as [[[] | e] s3]; intros H; inversion H; subst.
    eauto.
  - assert (Hno : forall (r : result (option PyModule)) s3,
               (match r with Ok _ => False | Raise _ => True end \/ r = Ok None) ->
               (match del_sys_path_last s3 with
                | (Ok _, s4) => (r, s4)
                | (Raise e', s4) => (Raise e', s4)
                end) = (Ok (Some m), s1) -> False).
    { intros r s3 Hr. destruct (del_sys_path_last s3) as [[[] | e'] s4];
        intros H; inversion H; subst; destruct Hr as [[] | Hr]; discriminate Hr. }
    intros H. exfalso. destruct e;
      first [ eapply Hno; [| exact H]; left; exact I
            | unfold logger_warn, modify, ret in H; eapply Hno; [| exact H]; right; reflexivity ].
Qed.

(** [init_module] keeps [R] once [import_by_path] does. *)
Lemma keeps_init_module_from path :
  keeps R (import_by_path import_ path) ->
  allowed path ->
  keeps R (init_module import_ path).
Proof.
  intros Hby Hpath. unfold init_module.
  apply keeps_bind_at; [exact Hby |].
  intros s [m |] s1 Hrun; [| reflexivity].
  destruct (mod_init m) as [init |] eqn:Hinit; [| reflexivity].
  apply import_by_path_module in Hrun as [s2 Himp].
  assert (Hk : keeps R (logger_debug "calling init on {0}" (ArgStr (mod_name m));;
                        modify (set_PATH (Some path));; init)).
  { apply keeps_bind; [apply keeps_logger_debug | intros _].
    apply keeps_bind; [apply keeps_modify; intros s'; now apply R_PATH | intros _].
    destruct Hsite as [_ Hinits]. eapply Hinits; eassumption. }
  apply Hk.
Qed.

Lemma keeps_configure_loop_from (paths : list string) :
  (forall path, path ∈ paths -> keeps R (import_by_path import_ path)) ->
  Forall allowed paths ->
  keeps R (for_each paths (configure_path import_)).
Proof.
  intros Hby Hall. apply keeps_for_each. intros path Hin.
  unfold configure_path.
  apply keeps_bind; [apply keeps_collect_pubkeys | intros _].
  apply keeps_init_module_from; [now apply Hby |].
  rewrite Forall_forall in Hall. now apply Hall.
Qed.

End Keeps.

(** [configure], [configure_cwd] and the module body keep a relation that
    all four assignments respect. *)
Section KeepsAll.

Context (R : relation State) `{!PreOrder R}.
Hypothesis R_logged : forall s l, R s (set_logged l s).
Hypothesis R_appended : forall s text, R s (set_PUBKEYS (PUBKEYS s ++ [text]) s).
Hypothesis R_sys_path : forall s l, R s (set_sys_path l s).
Hypothesis R_PATH : forall s path, R s (set_PATH (Some path) s).
Variable import_ : string -> M PyModule.
Hypothesis Hsite : site_keeps R import_.

Lemma keeps_configure (paths : list string) : keeps R (configure import_ paths).
Proof.
  destruct paths as [| p paths]; [apply keeps_ret; assumption |].
  unfold configure. apply keeps_bind; [assumption | intros s; reflexivity | intros s0].
  apply (keeps_configure_loop_from R R_logged R_appended (fun _ => True)); auto.
  - intros path _. now apply keeps_import_by_path.
  - apply Forall_forall. auto.
Qed.

Lemma keeps_configure_cwd (paths : list string) : keeps R (configure_cwd import_ paths).
Proof.
  unfold configure_cwd. apply keeps_bind; [assumption | intros s; reflexivity | intros s0].
  apply keeps_configure.
Qed.

Lemma keeps_module_body home pw_dir : keeps R (module_body import_ home pw_dir).
Proof.
  unfold module_body. apply keeps_bind; [assumption | intros s; reflexivity | intros present].
  apply keeps_configure.
Qed.

End KeepsAll.

(** *** The pubkey list only grows *)

#[local] Instance pubkeys_grow_preorder : PreOrder pubkeys_grow.
Proof.
  split.
  - intros s. unfold pubkeys_grow. reflexivity.
  - intros s1 s2 s3. unfold pubkeys_grow. apply transitivity.
Qed.

(** [PUBKEYS] is append-only across a run: when the code of the site does
    not drop keys, the list after [configure] (and after [configure_cwd])
    starts with the list before it, whether the run finishes or raises. *)
Theorem configure_pubkeys_append_only (import_ : string -> M PyModule) :
  site_keeps pubkeys_grow import_ ->
  forall paths s,
    PUBKEYS s `prefix_of` PUBKEYS (configure import_ paths s).2 /\
    PUBKEYS s `prefix_of` PUBKEYS (configure_cwd import_ paths s).2.
Proof.
  intros Hsite paths s.
  assert (HL : forall s l, pubkeys_grow s (set_logged l s))
    by (intros; unfold pubkeys_grow; reflexivity).
  assert (HA : forall s t, pubkeys_grow s (set_PUBKEYS (PUBKEYS s ++ [t]) s))
    by (intros s0 t; unfold pubkeys_grow; cbn; now exists [t]).
  assert (HS : forall s l, pubkeys_grow s (set_sys_path l s))
    by (intros; unfold pubkeys_grow; reflexivity).
  assert (HP : forall s p, pubkeys_grow s (set_PATH (Some p) s))
    by (intros; unfold pubkeys_grow; reflexivity).
  split.
  - now apply (keeps_configure pubkeys_grow HL HA HS HP import_ Hsite paths s).
  - now apply (keeps_configure_cwd pubkeys_grow HL HA HS HP import_ Hsite paths s).
Qed.

(** [add_bundle] raises before it has changed anything, or is a call
    of [new_bundle] on two dicts. *)
Lemma add_bundle_cases (name : string) (scripts files : list string)
    (sd fd : string) (s : State) :
  (exists e, add_bundle name scripts files sd fd s = (Raise e, s)) \/
  (exists sm fm,
      add_bundle name scripts files sd fd s = new_bundle name (PyDict sm) (PyDict fm) s).
Proof.
  unfold add_bundle, bind, get, lift, makemap, ret. simpl.
  destruct (join_any (PATH s) sd []) as [sdir | e]; [| left; eauto].
  destruct (map_result _ files) as [sources | e]; [| left; eauto].
  right. eauto.
Qed.

(** [add_bundle] writes the registry and the log, nothing else. *)
Lemma add_bundle_touches (name : string) (scripts files : list string)
    (sd fd : string) (s : State) :
  let s' := (add_bundle name scripts files sd fd s).2 in
  PUBKEYS s' = PUBKEYS s /\ PATH s' = PATH s /\ sys_path s' = sys_path s.
Proof.
  destruct (add_bundle_cases name scripts files sd fd s) as [[e ->] | [sm [fm ->]]].
  - now cbn.
  - rewrite new_bundle_run. cbn. case_bool_decide; now cbn.
Qed.

Lemma plain_import_keeps (R : relation State) :
  Reflexive R -> keeps R site_init -> site_keeps R plain_import.
Proof.
  intros Hrefl Hinit. split.
  - intros name s. unfold plain_import.
    destruct (String.eqb name "site"); apply Hrefl.
  - intros name s m s' init Himp Hm. unfold plain_import in Himp.
    destruct (String.eqb name "site"); inversion Himp; subst.
    cbn in Hm. now inversion Hm; subst.
Qed.

Lemma configure_pubkeys_append_only_witness :
  ["ssh-rsa OLD"] `prefix_of`
    PUBKEYS (configure plain_import ["/etc/site"]
               (set_PUBKEYS ["ssh-rsa OLD"] keys_state)).2.
Proof.
  refine (proj1 (configure_pubkeys_append_only plain_import _ ["/etc/site"]
                   (set_PUBKEYS ["ssh-rsa OLD"] keys_state))).
  apply plain_import_keeps; [apply pubkeys_grow_preorder |].
  intros s. unfold pubkeys_grow, site_init.
  rewrite (proj1 (add_bundle_touches _ _ _ _ _ s)). reflexivity.
Defined.

(** *** The search path across a run *)

#[local] Instance sys_path_same_preorder : PreOrder sys_path_same.
Proof.
  split.
  - intros s. reflexivity.
  - intros s1 s2 s3 H12 H23. unfold sys_path_same in *. congruence.
Qed.

Lemma import_by_path_keeps_sys_path (import_ : string -> M PyModule) (path : string) :
  keeps sys_path_same (import_ (basename path)) ->
  keeps sys_path_same (import_by_path import_ path).
Proof.
  intros Himport s. unfold sys_path_same.
  pose proof (Himport (importing path s)) as Hframe. unfold sys_path_same in Hframe.
  destruct (import_ (basename path) (importing path s)) as [[m | e] s'] eqn:Himp;
    cbn [snd] in Hframe;
    destruct (popped_after_importing path s s' Hframe) as [Hne Hpop].
  - now rewrite (import_by_path_Ok _ _ _ _ _ Himp Hne).
  - assert (e = ImportError \/ e <> ImportError) as [-> | He]
      by (destruct e; (now left) || (right; discriminate)).
    + now rewrite (import_by_path_ImportError _ _ _ _ Himp Hne).
    + now rewrite (import_by_path_Raise _ _ _ _ _ Himp He Hne).
Qed.

(** When the code of the site leaves [sys.path] as it finds it, so does
    a whole run of [configure]: each appended directory is deleted again
    before the next path is taken up, on every outcome of the run. *)
Theorem configure_restores_sys_path (import_ : string -> M PyModule) :
  site_keeps sys_path_same import_ ->
  forall paths s, sys_path (configure import_ paths s).2 = sys_path s.
Proof.
  intros Hsite paths s.
  destruct paths as [| p paths]; [reflexivity |].
  unfold configure, bind, get.
  apply (keeps_configure_loop_from sys_path_same
           ltac:(intros; reflexivity) ltac:(intros; reflexivity)
           (fun _ => True) ltac:(intros; reflexivity) import_ Hsite).
  - intros path _. apply import_by_path_keeps_sys_path. apply Hsite.
  - apply Forall_forall. auto.
Qed.

Lemma configure_restores_sys_path_witness :
  sys_path (configure plain_import ["/etc/site"; "/etc/missing"] keys_state).2
  = ["/usr/lib/python"].
Proof.
  apply (configure_restores_sys_path plain_import).
  apply plain_import_keeps; [apply sys_path_same_preorder |].
  intros s. unfold sys_path_same, site_init.
  apply (proj2 (proj2 (add_bundle_touches _ _ _ _ _ s))).
Defined.

Lemma site_keeps_weaken (R1 R2 : relation State) (import_ : string -> M PyModule) :
  (forall s s', R1 s s' -> R2 s s') -> site_keeps R1 import_ -> site_keeps R2 import_.
Proof.
  intros Hsub [Himp Hinit]. split.
  - intros name s. apply Hsub, Himp.
  - intros name s m s' init H1 H2 s0. apply Hsub. eapply Hinit; eassumption.
Qed.

(** *** The base path after a run *)

Lemma PATH_among_preorder (dirs : list string) : PreOrder (PATH_among dirs).
Proof.
  split.
  - intros s. now left.
  - intros s1 s2 s3 [H12 | H12] [H23 | H23]; unfold PATH_among.
    + left. congruence.
    + now right.
    + right. destruct H12 as [dir [Hin Hd]]. exists dir. split; [exact Hin | congruence].
    + now right.
Qed.

(** When the code of the site does not assign [PATH], the base path
    after [configure] is the one before it or one of the given
    directories, resolved against [CODEPATH]: the driver sets it to
    nothing else, and never back to [None]. *)
Theorem configure_PATH_among (import_ : string -> M PyModule) :
  site_keeps PATH_same import_ ->
  forall paths s,
    PATH (configure import_ paths s).2 = PATH s \/
    exists p, p ∈ paths /\
              PATH (configure import_ paths s).2 = Some (normalize_path (CODEPATH s) p).
Proof.
  intros Hsite paths s.
  destruct paths as [| p0 paths]; [now left |].
  set (dirs := map (normalize_path (CODEPATH s)) (p0 :: paths)).
  assert (Hsite' : site_keeps (PATH_among dirs) import_)
    by (eapply site_keeps_weaken; [| exact Hsite]; intros s1 s2 H; now left).
  pose proof (PATH_among_preorder dirs) as Hpre.
  assert (HL : forall s l, PATH_among dirs s (set_logged l s)) by (intros; now left).
  assert (HA : forall s t, PATH_among dirs s (set_PUBKEYS (PUBKEYS s ++ [t]) s))
    by (intros; now left).
  assert (HS : forall s l, PATH_among dirs s (set_sys_path l s)) by (intros; now left).
  assert (HP : forall s dir, dir ∈ dirs -> PATH_among dirs s (set_PATH (Some dir) s))
    by (intros s1 dir Hdir; right; eauto).
  assert (Hrun : PATH_among dirs s (configure import_ (p0 :: paths) s).2).
  { unfold configure, bind, get. fold dirs.
    apply (keeps_configure_loop_from (PATH_among dirs) HL HA (fun dir => dir ∈ dirs) HP
             import_ Hsite' dirs).
    - intros path _. now apply keeps_import_by_path.
    - apply Forall_forall. auto. }
  destruct Hrun as [Hsame | [dir [Hdir Hset]]]; [now left | right].
  apply list_elem_of_fmap in Hdir as [p [-> Hp]]. eauto.
Qed.

Lemma configure_PATH_among_witness :
  PATH (configure plain_import ["/etc/missing"; "/etc/site"] keys_state).2 = PATH keys_state \/
  exists p, p ∈ ["/etc/missing"; "/etc/site"] /\
            PATH (configure plain_import ["/etc/missing"; "/etc/site"] keys_state).2
            = Some (normalize_path (CODEPATH keys_state) p).
Proof.
  apply (configure_PATH_among plain_import).
  apply plain_import_keeps; [intros s; reflexivity |].
  intros s. unfold PATH_same, site_init.
  apply (proj1 (proj2 (add_bundle_touches _ _ _ _ _ s))).
Defined.

(** *** What the driver never writes *)

#[local] Instance only_read_same_preorder : PreOrder only_read_same.
Proof.
  split.
  - intros s. reflexivity.
  - intros s1 s2 s3 H12 H23. unfold only_read_same in *. congruence.
Qed.

(** [configure], [configure_cwd] and the closing statements of the
    module write the pubkey list, the base path, the search path and the
    log, and nothing else: the registry, [CODEPATH], [PUBKEYSDIR],
    [DEFAULT_TARGETDIR], the working directory and the file system after
    a run are those before it unless the code of the site changes them. *)
Theorem configure_only_reads (import_ : string -> M PyModule) :
  site_keeps only_read_same import_ ->
  forall paths s,
    only_read (configure import_ paths s).2 = only_read s /\
    only_read (configure_cwd import_ paths s).2 = only_read s /\
    forall home pw_dir, only_read (module_body import_ home pw_dir s).2 = only_read s.
Proof.
  intros Hsite paths s.
  assert (HL : forall s l, only_read_same s (set_logged l s)) by reflexivity.
  assert (HA : forall s t, only_read_same s (set_PUBKEYS (PUBKEYS s ++ [t]) s)) by reflexivity.
  assert (HS : forall s l, only_read_same s (set_sys_path l s)) by reflexivity.
  assert (HP : forall s p, only_read_same s (set_PATH (Some p) s)) by reflexivity.
  refine (conj _ (conj _ _)).
  - apply (keeps_configure only_read_same HL HA HS HP import_ Hsite paths s).
  - apply (keeps_configure_cwd only_read_same HL HA HS HP import_ Hsite paths s).
  - intros home pw_dir.
    apply (keeps_module_body only_read_same HL HA HS HP import_ Hsite home pw_dir s).
Qed.

Lemma configure_only_reads_witness :
  BUNDLEMAP (configure consts_import ["/etc/consts"] demo_state).2 = BUNDLEMAP demo_state.
Proof.
  assert (Hsite : site_keeps only_read_same consts_import).
  { split.
    - intros name s. unfold consts_import.
      destruct (String.eqb name "consts"); reflexivity.
    - intros name s m s' init Himp Hm. unfold consts_import in Himp.
      destruct (String.eqb name "consts"); inversion Himp; subst. discriminate Hm. }
  pose proof (proj1 (configure_only_reads consts_import Hsite ["/etc/consts"] demo_state)) as H.
  unfold only_read in H. now inversion H.
Defined.

(* ===================================================================== *)
(** ** Loading one directory *)
(* ===================================================================== *)

(** A bundle registered by the [init] of a module is resolved against
    the directory of that module.  When the import of the module at
    [path] succeeds and its [init] is a call of [add_bundle], then
    [init_module] finishes normally, [PATH] is [path], and the filemap of
    the stored Bundle sends every target file to its base name in the
    files directory under [path], whatever [PATH] was before; when all
    the script names are relative, the scriptmap sends every one of them
    to that name in the scripts directory under [path]. *)
Theorem init_registers_under_own_directory (import_ : string -> M PyModule)
    (path name sd fd : string) (scripts files : list string)
    (m : PyModule) (s s2 : State) :
  import_ (basename path) (importing path s) = (Ok m, s2) ->
  sys_path s2 <> [] ->
  mod_init m = Some (add_bundle name scripts files sd fd) ->
  let out := init_module import_ path s in
  out.1 = Ok tt /\
  PATH out.2 = Some path /\
  exists smap fmap,
    BUNDLEMAP out.2 !! name = Some (mkBundle (PyDict smap) (PyDict fmap)) /\
    (forall f, f ∈ files -> fmap !! f = Some (join (join path [fd]) [basename f])) /\
    (Forall (fun f => isabs f = false) scripts ->
     forall f, f ∈ scripts ->
       smap !! join (DEFAULT_TARGETDIR s2) [f] = Some (join (join path [sd]) [f])).
Proof.
  intros Himp Hne Hinit out. subst out.
  rewrite (init_module_init import_ path s (popped s2) m _
             (import_by_path_Ok import_ path s s2 m Himp Hne) Hinit).
  set (s3 := calling_init path m (popped s2)).
  assert (HP : PATH s3 = Some path) by reflexivity.
  destruct (add_bundle_stores name scripts files sd fd path s3 HP)
    as [Hok [smap [fmap [Hb [Hfiles [_ Hscripts]]]]]].
  split; [exact Hok |].
  split; [now rewrite (proj1 (proj2 (add_bundle_touches name scripts files sd fd s3))) |].
  exists smap, fmap. auto.
Qed.

Lemma init_registers_under_own_directory_witness :
  PATH (init_module site_import "/etc/site" demo_state).2 = Some "/etc/site" /\
  exists smap fmap,
    BUNDLEMAP (init_module site_import "/etc/site" demo_state).2 !! "web"
      = Some (mkBundle (PyDict smap) (PyDict fmap)) /\
    fmap !! "/etc/app.conf" = Some "/etc/site/files/app.conf".
Proof.
  destruct (init_registers_under_own_directory site_import "/etc/site" "web"
              SCRIPTSDIR FILESDIR ["setup.sh"] ["/etc/app.conf"]
              (mkModule "site" (Some site_init)) demo_state
              (importing "/etc/site" demo_state) eq_refl)
    as [_ [HP [smap [fmap [Hb [Hfiles _]]]]]];
    [discriminate | reflexivity |].
  split; [exact HP |]. exists smap, fmap. split; [exact Hb |].
  apply (Hfiles "/etc/app.conf"). apply list_elem_of_here.
Defined.

(** [collect_pubkeys] logs the path, then loads the keys when the
    directory has a [pubkeys] entry. *)
Lemma collect_pubkeys_run (path : string) (s : State) :
  collect_pubkeys path s =
    if fs_exists s (join path [PUBKEYSDIR s])
    then load_pubkeys (join path [PUBKEYSDIR s]) (logged_path path s)
    else (Ok tt, logged_path path s).
Proof.
  unfold collect_pubkeys, bind, logger_debug, modify, get, os_path_exists.
  fold (logged_path path s).
  change (fs_exists (logged_path path s)) with (fs_exists s).
  change (PUBKEYSDIR (logged_path path s)) with (PUBKEYSDIR s).
  now destruct (fs_exists s (join path [PUBKEYSDIR s])).
Qed.

(** A failure while the keys of a directory are collected ends the run
    there: the module of that directory is not imported and no later
    directory is looked at, whatever the import mechanism.  In
    particular, when [pubkeys] exists in the directory but cannot be
    listed (it is not a directory), [configure] raises [OSError] having
    done nothing but log the path. *)
Theorem configure_stops_in_pubkeys (import_ : string -> M PyModule)
    (p : string) (rest : list string) (s : State) :
  let path := normalize_path (CODEPATH s) p in
  let pubkeys_path := join path [PUBKEYSDIR s] in
  (forall e s1,
      collect_pubkeys path s = (Raise e, s1) ->
      configure import_ (p :: rest) s = (Raise e, s1)) /\
  (fs_exists s pubkeys_path = true ->
   fs_listdir s pubkeys_path = None ->
   configure import_ (p :: rest) s = (Raise (OSError pubkeys_path), logged_path path s)).
Proof.
  intros path pubkeys_path.
  assert (Hstop : forall e s1,
             collect_pubkeys path s = (Raise e, s1) ->
             configure import_ (p :: rest) s = (Raise e, s1)).
  { intros e s1 Hraise. rewrite configure_cons. cbn [map]. fold path.
    apply for_each_cons_Raise. unfold configure_path, bind. now rewrite Hraise. }
  split; [exact Hstop |].
  intros Hex Hls. apply Hstop.
  rewrite collect_pubkeys_run. fold path. fold pubkeys_path. rewrite Hex.
  assert (Hls' : fs_listdir (logged_path path s) pubkeys_path = None) by exact Hls.
  unfold load_pubkeys, bind, os_listdir. now rewrite Hls'.
Qed.

Lemma configure_stops_in_pubkeys_witness :
  configure site_import ["/etc/site"; "/etc/consts"] odd_keys_state
  = (Raise (OSError "/etc/site/pubkeys"), logged_path "/etc/site" odd_keys_state).
Proof.
  apply (proj2 (configure_stops_in_pubkeys site_import "/etc/site" ["/etc/consts"]
                  odd_keys_state)); reflexivity.
Defined.

(** A directory that has no [pubkeys] and no module to import costs two
    log records and nothing else: when the import raises [ImportError]
    without having changed anything, [configure] on that directory
    finishes normally and the state differs from the one before only by
    the debug record of the path and the warning of the failed import. *)
Theorem configure_empty_directory (import_ : string -> M PyModule)
    (p : string) (s : State) :
  let path := normalize_path (CODEPATH s) p in
  fs_exists s (join path [PUBKEYSDIR s]) = false ->
  import_ (basename path) (importing path (logged_path path s))
    = (Raise ImportError, importing path (logged_path path s)) ->
  configure import_ [p] s =
    (Ok tt,
     set_logged (logged s ++ [mkLog DEBUG "configuration path {0}" (ArgStr path);
                              mkLog WARNING "unable to import {0}" (ArgStr path)]) s).
Proof.
  intros path Hex Himp.
  rewrite configure_cons. cbn [map for_each]. fold path.
  assert (Hpre : collect_pubkeys path s = (Ok tt, logged_path path s))
    by (rewrite collect_pubkeys_run; fold path; now rewrite Hex).
  unfold bind at 1. rewrite (configure_path_after_pubkeys import_ path s _ Hpre).
  rewrite (init_module_None import_ path _ _
             (import_by_path_ImportError import_ path _ _ Himp
                ltac:(cbn; intros H; apply app_eq_nil in H as [_ H]; discriminate H))).
  unfold ret. f_equal.
  unfold popped, warned_import, importing, logged_path, set_sys_path, set_logged; cbn.
  rewrite removelast_snoc, <- app_assoc. now destruct s.
Qed.

Lemma configure_empty_directory_witness :
  PUBKEYS (configure site_import ["defaults"] site_state).2 = [] /\
  sys_path (configure site_import ["defaults"] site_state).2 = ["/usr/lib/python"] /\
  length (logged (configure site_import ["defaults"] site_state).2) = 2.
Proof.
  rewrite (configure_empty_directory site_import "defaults" site_state eq_refl eq_refl).
  repeat split.
Defined.

(* ===================================================================== *)
(** ** Resolution of paths through the driver *)
(* ===================================================================== *)

Lemma join_relative_absolute (b p : string) :
  isabs b = true -> isabs p = false -> isabs (join b [p]) = true.
Proof.
  intros Hb Hp. rewrite join_one_relative by exact Hp.
  destruct (negb (nonempty b) || endswith_sep b); now apply isabs_app.
Qed.

Lemma map_normalize_absolute (c : string) (paths : list string) :
  Forall (fun p => isabs p = true) paths -> map (normalize_path c) paths = paths.
Proof.
  induction 1 as [| p paths Hp _ IH]; cbn [map]; [reflexivity |].
  rewrite IH. unfold normalize_path. now rewrite Hp.
Qed.

(** A path that has been resolved against an absolute base is left as
    it is by any further resolution, whatever the base of the second. *)
Theorem normalize_path_settles (b b' p : string) :
  isabs b = true ->
  normalize_path b' (normalize_path b p) = normalize_path b p.
Proof.
  intros Hb.
  assert (Habs : isabs (normalize_path b p) = true).
  { unfold normalize_path. destruct (isabs p) eqn:Hp; [exact Hp |].
    now apply join_relative_absolute. }
  generalize dependent (normalize_path b p). intros q Hq.
  unfold normalize_path. now rewrite Hq.
Qed.

Lemma normalize_path_settles_witness :
  normalize_path "/opt/provision" (normalize_path "/home/alice" "site") = "/home/alice/site".
Proof.
  rewrite (normalize_path_settles "/home/alice" "/opt/provision" "site" eq_refl).
  reflexivity.
Defined.

(** The relative paths given to [configure_cwd] are resolved against the
    working directory and not against [CODEPATH]: with an absolute
    working directory, [configure_cwd] runs the loop of [configure] over
    the relative paths joined to the working directory, in their order. *)
Theorem configure_cwd_resolves_against_cwd (import_ : string -> M PyModule)
    (paths : list string) (s : State) :
  isabs (cwd s) = true ->
  configure_cwd import_ paths s =
    for_each (map (fun p => join (cwd s) [p])
                  (List.filter (fun p => negb (isabs p)) paths))
             (configure_path import_) s.
Proof.
  intros Hcwd. unfold configure_cwd, bind, get.
  set (dirs := map _ _).
  assert (Habs : Forall (fun p => isabs p = true) dirs).
  { subst dirs. apply Forall_forall. intros dir Hdir.
    apply list_elem_of_fmap in Hdir as [p [-> Hp]].
    apply list_elem_of_In, filter_In in Hp as [_ Hp].
    apply join_relative_absolute; [exact Hcwd |]. now apply negb_true_iff. }
  clearbody dirs. destruct dirs as [| dir more]; [reflexivity |].
  rewrite configure_cons. now rewrite map_normalize_absolute.
Qed.

Lemma configure_cwd_resolves_against_cwd_witness :
  configure_cwd site_import ["site"; "/etc/consts"] keys_state
  = for_each ["/home/alice/site"] (configure_path site_import) keys_state.
Proof.
  rewrite (configure_cwd_resolves_against_cwd site_import ["site"; "/etc/consts"]
             keys_state eq_refl).
  reflexivity.
Defined.

(** Two calls of [configure] in a row are one call on the two lists in a
    row, when the paths of the second list are absolute: the directories
    are processed in the order given, and when the first call raises the
    second list is not touched. *)
Theorem configure_app (import_ : string -> M PyModule) (ps qs : list string) (s : State) :
  Forall (fun p => isabs p = true) qs ->
  configure import_ (ps ++ qs) s = (configure import_ ps;; configure import_ qs) s.
Proof.
  intros Hqs.
  assert (Hloop : forall s', configure import_ qs s'
                             = for_each qs (configure_path import_) s').
  { intros s'. destruct qs as [| q qs']; [reflexivity |].
    rewrite configure_cons. now rewrite map_normalize_absolute. }
  destruct ps as [| p ps]; [reflexivity |].
  cbn [app]. rewrite configure_cons.
  change (p :: ps ++ qs) with ((p :: ps) ++ qs).
  rewrite map_app, for_each_app, (map_normalize_absolute _ qs Hqs).
  unfold bind. rewrite configure_cons.
  destruct (for_each _ _ s) as [[[] | e] s1]; [| reflexivity].
  now rewrite Hloop.
Qed.

Lemma configure_app_witness :
  configure site_import (["/etc/missing"] ++ ["/etc/site"]) keys_state
  = (configure site_import ["/etc/missing"];; configure site_import ["/etc/site"]) keys_state.
Proof.
  apply (configure_app site_import ["/etc/missing"] ["/etc/site"] keys_state).
  repeat constructor.
Defined.

Lemma nonempty_app_r (a b : string) : nonempty b = true -> nonempty (a +:+ b) = true.
Proof. destruct a; simpl; auto. Qed.

Lemma rstrip_sep_head (h : string) :
  isabs h = true -> rstrip_sep h = "" \/ isabs (rstrip_sep h) = true.
Proof.
  destruct h as [| c r]; [discriminate |]. cbn [isabs startswith_sep rstrip_sep].
  intros Hc. destruct (rstrip_sep r); [| now right].
  rewrite Hc. now left.
Qed.

(** The per-user directory, written out: [HOME] without its trailing
    separators, then [/.provision/secrets]. *)
Lemma LOCAL_DEFAULTS_eq (home : string) (pw_dir : string -> option string) :
  LOCAL_DEFAULTS home pw_dir = rstrip_sep home +:+ "/.provision/secrets".
Proof.
  unfold LOCAL_DEFAULTS, expanduser. cbn [find_sep_from is_sep Ascii.eqb].
  cbn. now rewrite nonempty_app_r.
Qed.

Lemma LOCAL_DEFAULTS_absolute (home : string) (pw_dir : string -> option string) :
  isabs home = true -> isabs (LOCAL_DEFAULTS home pw_dir) = true.
Proof.
  intros Hhome. rewrite LOCAL_DEFAULTS_eq.
  destruct (rstrip_sep_head home Hhome) as [-> | Habs]; [reflexivity |].
  now apply isabs_app.
Qed.

(** The directories the module consults when it is loaded.  With an
    absolute [HOME], the closing statements of the module run the loop of
    [configure] over [defaults] and [secrets] next to the code, and then,
    only when it exists, over [.provision/secrets] under the home
    directory, which is taken as it is and not resolved against the code
    location. *)
Theorem module_body_directories (import_ : string -> M PyModule)
    (home : string) (pw_dir : string -> option string) (s : State) :
  isabs home = true ->
  let local := rstrip_sep home +:+ "/.provision/secrets" in
  module_body import_ home pw_dir s =
    for_each ([join (CODEPATH s) ["defaults"]; join (CODEPATH s) ["secrets"]]
                ++ (if fs_exists s local then [local] else []))
             (configure_path import_) s.
Proof.
  intros Hhome local.
  pose proof (LOCAL_DEFAULTS_absolute home pw_dir Hhome) as Habs.
  unfold module_body, bind, os_path_exists.
  rewrite LOCAL_DEFAULTS_eq in *. fold local in Habs |- *.
  destruct (fs_exists s local); cbn [app]; rewrite configure_cons; cbn [map].
  - unfold normalize_path at 3. now rewrite Habs.
  - reflexivity.
Qed.

Lemma module_body_directories_witness :
  module_body consts_import "/home/alice/" (fun _ => None) site_state
  = for_each ["/opt/provision/defaults"; "/opt/provision/secrets"]
      (configure_path consts_import) site_state.
Proof.
  rewrite (module_body_directories consts_import "/home/alice/" (fun _ => None)
             site_state eq_refl).
  reflexivity.
Defined.

(* ===================================================================== *)
(** ** Random names *)
(* ===================================================================== *)

Lemma omap_lookup_elem {A} (population : list A) (choice : list nat) (x : A) :
  x ∈ omap (fun i => population !! i) choice <->
  exists i, i ∈ choice /\ population !! i = Some x.
Proof.
  induction choice as [| i choice IH]; cbn [omap list_omap].
  - split; [intros H; now apply elem_of_nil in H |].
    intros [i [H _]]. now apply elem_of_nil in H.
  - destruct (population !! i) as [y |] eqn:Hy.
    + rewrite elem_of_cons, IH. split.
      * intros [-> | [j [Hj Hx]]]; [exists i | exists j]; split; auto;
          apply elem_of_cons; auto.
      * intros [j [Hj Hx]]. apply elem_of_cons in Hj as [-> | Hj].
        -- left. congruence.
        -- right. eauto.
    + rewrite IH. split.
      * intros [j [Hj Hx]]. exists j. split; [apply elem_of_cons; auto | exact Hx].
      * intros [j [Hj Hx]]. apply elem_of_cons in Hj as [-> | Hj]; [congruence | eauto].
Qed.

Lemma omap_lookup_length {A} (population : list A) (choice : list nat) :
  Forall (fun i => i < length population) choice ->
  length (omap (fun i => population !! i) choice) = length choice.
Proof.
  induction 1 as [| i choice Hi _ IH]; [reflexivity |]. cbn [omap list_omap].
  destruct (lookup_lt_is_Some_2 population i Hi) as [x ->]. cbn. now rewrite IH.
Qed.

Lemma omap_lookup_NoDup {A} (population : list A) (choice : list nat) :
  NoDup population -> NoDup choice ->
  NoDup (omap (fun i => population !! i) choice).
Proof.
  intros Hpop. induction 1 as [| i choice Hi _ IH]; cbn [omap list_omap].
  - constructor.
  - destruct (population !! i) as [x |] eqn:Hx; [| exact IH].
    constructor; [| exact IH].
    intros Hin. apply omap_lookup_elem in Hin as [j [Hj Hxj]].
    pose proof (NoDup_lookup population i j x Hpop Hx Hxj). now subst.
Qed.

(** [random_str] draws without replacement.  It raises [ValueError] when
    the length asked for is negative or exceeds the number of characters
    to choose from (36 by default).  Otherwise the name has exactly the
    length asked for, every character of it is one of the given
    characters, and when these are pairwise different (as the default
    ones are) no character occurs twice in the name. *)
Theorem random_str_draws (length : Z) (charspace : string) (choice : list nat) :
  let chars := list_ascii_of_string charspace in
  ((length < 0 \/ Z.of_nat (List.length chars) < length)%Z ->
   random_str length charspace choice = Raise (OtherError "ValueError")) /\
  ((0 <= length <= Z.of_nat (List.length chars))%Z ->
   drawn (List.length chars) (Z.to_nat length) choice ->
   exists name,
     random_str length charspace choice = Ok name /\
     String.length name = Z.to_nat length /\
     (forall c, c ∈ list_ascii_of_string name -> c ∈ chars) /\
     (NoDup chars -> NoDup (list_ascii_of_string name))).
Proof.
  intros chars. unfold random_str, random_sample. fold chars. split.
  - intros Hbad.
    destruct ((0 <=? length)%Z && (length <=? Z.of_nat (List.length chars))%Z)%bool eqn:Hok;
      [| reflexivity].
    apply andb_true_iff in Hok as [H1 H2]. lia.
  - intros Hrange [Hlen [Hnodup Hin]].
    replace ((0 <=? length)%Z && (length <=? Z.of_nat (List.length chars))%Z)%bool
      with true by (symmetry; apply andb_true_iff; split; lia).
    eexists. split; [reflexivity |].
    rewrite list_ascii_of_string_of_list_ascii.
    refine (conj _ (conj _ _)).
    + rewrite <- Hlen, <- (omap_lookup_length chars choice Hin).
      generalize (omap (fun i => chars !! i) choice). intros l.
      induction l as [| c l IH]; cbn; [reflexivity | now rewrite IH].
    + intros c Hc. apply omap_lookup_elem in Hc as [i [_ Hi]].
      eapply list_elem_of_lookup_2. exact Hi.
    + intros Hchars. now apply omap_lookup_NoDup.
Qed.

Lemma random_str_draws_witness :
  (exists name,
      random_str 6 (ascii_lowercase +:+ digits) [3; 0; 35; 26; 9; 14] = Ok name /\
      String.length name = 6 /\
      NoDup (list_ascii_of_string name)) /\
  random_str 37 (ascii_lowercase +:+ digits) [] = Raise (OtherError "ValueError").
Proof.
  assert (Hchars : NoDup (list_ascii_of_string (ascii_lowercase +:+ digits))).
  { apply NoDup_ListNoDup. vm_compute.
    repeat (constructor; [cbn; intuition discriminate |]). constructor. }
  destruct (random_str_draws 6 (ascii_lowercase +:+ digits) [3; 0; 35; 26; 9; 14])
    as [_ Hok].
  destruct Hok as [name [Hname [Hlen [_ Hnodup]]]].
  - vm_compute. split; discriminate.
  - repeat split; [| repeat constructor; vm_compute; lia].
    apply NoDup_ListNoDup. repeat constructor; cbn; intuition lia.
  - split; [exists name; auto |].
    apply (proj1 (random_str_draws 37 (ascii_lowercase +:+ digits) [])).
    right. vm_compute. reflexivity.
Defined.

(* ===================================================================== *)
(** ** The two passes over the command line *)
(* ===================================================================== *)

Section ReconfigFacts.

Variable parse_config_paths : list string -> result (list string * list string).
Variable import_ : string -> M PyModule.
Variable Namespace : Type.

(** Configuration directories given by absolute path on the command
    line are not loaded: when every [-c] value is absolute, [reconfig]
    does what it does without any [-c], which is to run the caller's
    parser on the remaining arguments in an unchanged state. *)
Theorem reconfig_skips_absolute (main_parser : M (list string -> result Namespace))
    (argv paths rest : list string) (s : State) :
  parse_config_paths argv = Ok (paths, rest) ->
  Forall (fun p => isabs p = true) paths ->
  reconfig parse_config_paths import_ Namespace main_parser argv s
  = (parse_args <- main_parser;; lift (parse_args rest)) s.
Proof.
  intros Hparse Habs. unfold reconfig, lift at 1. rewrite Hparse.
  unfold bind at 1 2. cbn [fst snd].
  now rewrite (configure_cwd_absolute import_ paths s Habs).
Qed.

End ReconfigFacts.

Lemma reconfig_skips_absolute_witness :
  reconfig (fun _ => Ok (["/etc/site"], ["--size"; "2"])) site_import (list string)
    (ret (fun rest => Ok rest)) ["-c"; "/etc/site"; "--size"; "2"] site_state
  = (Ok ["--size"; "2"], site_state).
Proof.
  rewrite (reconfig_skips_absolute (fun _ => Ok (["/etc/site"], ["--size"; "2"]))
             site_import (list string) (ret (fun rest => Ok rest))
             ["-c"; "/etc/site"; "--size"; "2"] ["/etc/site"] ["--size"; "2"]
             site_state eq_refl ltac:(repeat constructor)).
  reflexivity.
Defined.

(* ===================================================================== *)
(** ** A directory that holds only keys *)
(* ===================================================================== *)

Lemma load_pubkeys_run (loadpath : string) (names texts : list string) (s : State) :
  fs_listdir s loadpath = Some names ->
  Forall2 (fun n t => fs_read s (join loadpath [n]) = Some t) names texts ->
  load_pubkeys loadpath s
  = (Ok tt, set_PUBKEYS (PUBKEYS s ++ texts) (logged_listing names s)).
Proof.
  intros Hls Hrd. unfold load_pubkeys, bind, os_listdir. rewrite Hls.
  unfold logger_debug, modify. fold (logged_listing names s).
  now rewrite (for_each_read_appends loadpath names texts).
Qed.

(** [configure] on one directory whose [pubkeys] entries can all be read
    and which has no module to import (the import raises [ImportError]
    and changes nothing): the run finishes normally, the contents of the
    entries are appended to [PUBKEYS] once each, in the order of the
    listing, and the search path, the base path and the registry are as
    before. *)
Theorem configure_collects_keys (import_ : string -> M PyModule)
    (p : string) (names texts : list string) (s : State) :
  let path := normalize_path (CODEPATH s) p in
  let pubkeys_path := join path [PUBKEYSDIR s] in
  let collected :=
    set_PUBKEYS (PUBKEYS s ++ texts) (logged_listing names (logged_path path s)) in
  fs_exists s pubkeys_path = true ->
  fs_listdir s pubkeys_path = Some names ->
  Forall2 (fun n t => fs_read s (join pubkeys_path [n]) = Some t) names texts ->
  import_ (basename path) (importing path collected)
    = (Raise ImportError, importing path collected) ->
  let out := configure import_ [p] s in
  out.1 = Ok tt /\
  PUBKEYS out.2 = PUBKEYS s ++ texts /\
  sys_path out.2 = sys_path s /\
  PATH out.2 = PATH s /\
  BUNDLEMAP out.2 = BUNDLEMAP s.
Proof.
  intros path pubkeys_path collected Hex Hls Hrd Himp out.
  assert (Hpre : collect_pubkeys path s = (Ok tt, collected)).
  { rewrite collect_pubkeys_run. fold path. fold pubkeys_path. rewrite Hex.
    now rewrite (load_pubkeys_run pubkeys_path names texts (logged_path path s) Hls Hrd). }
  assert (Hrun : out = (Ok tt, popped (warned_import path (importing path collected)))).
  { subst out. rewrite configure_cons. cbn [map for_each]. fold path.
    unfold bind. rewrite (configure_path_after_pubkeys import_ path s _ Hpre).
    now rewrite (init_module_None import_ path _ _
                   (import_by_path_ImportError import_ path _ _ Himp
                      ltac:(cbn; intros H; apply app_eq_nil in H as [_ H];
                            discriminate H))). }
  rewrite Hrun.
  unfold popped, warned_import, importing, collected.
  cbn [fst snd PUBKEYS sys_path PATH BUNDLEMAP set_sys_path set_logged set_PUBKEYS
       logged_listing logged_path].
  rewrite removelast_snoc. auto.
Qed.

Lemma configure_collects_keys_witness :
  PUBKEYS (configure consts_import ["/etc/site"] keys_state).2
  = ["ssh-rsa AAAA alice"; "ssh-rsa BBBB bob"].
Proof.
  apply (configure_collects_keys consts_import "/etc/site" ["a.pub"; "b.pub"]
           ["ssh-rsa AAAA alice"; "ssh-rsa BBBB bob"] keys_state eq_refl eq_refl
           ltac:(repeat constructor) eq_refl).
Defined.
